(** * monorepo-hatchet: package-graph resolver and deletion engine

    A shallow embedding of [pkg/pkglist] (the [Finder]: pattern matching,
    dependency closure, file projection) and of [pkg/cleaner] (the
    [Cleaner]: classification, removal, empty-directory collapse), with the
    properties of the specification proved over it.

    Conventions.
    - Go strings are [string]; the separator is the Unix one, so
      [filepath.ToSlash] is the identity.
    - Go maps used as maps are [gmap string _], maps used as sets are
      [gset string].
    - The file system behind [afero.Fs] is a tree rooted at the cleaner's
      source directory, threaded explicitly through the passes. *)

From Stdlib Require Import String Ascii List Bool Arith Lia.
From stdpp Require Import base option list strings gmap.

Local Open Scope string_scope.
Local Open Scope list_scope.
Local Open Scope stdpp_scope.

(** ** The [strings] package of the Go runtime *)

Module Strings.

(** [strings.HasPrefix(s, prefix)] *)
Definition HasPrefix (s pre : string) : bool := String.prefix pre s.

(** [strings.HasSuffix(s, suffix)]:
    [len(s) >= len(suffix) && s[len(s)-len(suffix):] == suffix] *)
Definition HasSuffix (s suf : string) : bool :=
  (String.length suf <=? String.length s)%nat &&
  String.eqb
    (String.substring (String.length s - String.length suf)
                      (String.length suf) s)
    suf.

(** [strings.TrimSuffix(s, suffix)] *)
Definition TrimSuffix (s suf : string) : string :=
  if HasSuffix s suf
  then String.substring 0 (String.length s - String.length suf) s
  else s.

(** [strings.Contains(s, substr)] *)
Fixpoint Contains (s sub : string) : bool :=
  String.prefix sub s ||
  match s with
  | EmptyString => false
  | String _ s' => Contains s' sub
  end.

(** [strings.Split(s, sep)] for a one-byte separator: the fields between
    the separators, of which there is always at least one. *)
Fixpoint SplitOn (sep : ascii) (s : string) : list string :=
  match s with
  | EmptyString => [EmptyString]
  | String c s' =>
      if Ascii.eqb c sep then EmptyString :: SplitOn sep s'
      else
        match SplitOn sep s' with
        | [] => [String c EmptyString]
        | w :: ws => String c w :: ws
        end
  end.

Definition Split (s : string) : list string := SplitOn "/"%char s.

(** [strings.Join(elems, "/")] *)
Fixpoint JoinSlash (elems : list string) : string :=
  match elems with
  | [] => EmptyString
  | [e] => e
  | e :: es => e +:+ "/" +:+ JoinSlash es
  end.

End Strings.

(** ** The [path/filepath] package, Unix flavour *)

Module Filepath.

(** [filepath.ToSlash]: the separator already is the slash. *)
Definition ToSlash (p : string) : string := p.

(** [filepath.IsAbs] *)
Definition IsAbs (p : string) : bool := Strings.HasPrefix p "/".

(** One step of the lexical clean-up of [filepath.Clean], on the
    components seen so far (innermost last): empty and [.] components
    are dropped, [..] cancels the component before it, is dropped at the
    root and is kept in front of a relative path. *)
Definition cleanStep (rooted : bool) (acc : list string) (c : string)
  : list string :=
  if String.eqb c "" || String.eqb c "." then acc
  else if String.eqb c ".." then
    match rev acc with
    | [] => if rooted then [] else [".."]
    | top :: below =>
        if String.eqb top ".." then acc ++ [".."] else rev below
    end
  else acc ++ [c].

(** [filepath.Clean] *)
Definition Clean (p : string) : string :=
  if String.eqb p "" then "."
  else
    let rooted := IsAbs p in
    let comps := fold_left (cleanStep rooted) (Strings.Split p) [] in
    let out := (if rooted then "/" else "") +:+ Strings.JoinSlash comps in
    if String.eqb out "" then "." else out.

(** [filepath.Join(a, b)]: empty elements are ignored, the rest is
    joined with the separator and cleaned; no element gives [""]. *)
Definition Join (a b : string) : string :=
  match String.eqb a "", String.eqb b "" with
  | true, true => ""
  | true, false => Clean b
  | false, true => Clean a
  | false, false => Clean (a +:+ "/" +:+ b)
  end.

(** [filepath.Base]: the last element of the path, trailing separators
    removed first; [.] for the empty path, [/] for a path of separators
    only. *)
Definition Base (p : string) : string :=
  if String.eqb p "" then "."
  else
    match List.filter (fun c => negb (String.eqb c "")) (Strings.Split p)
    with
    | [] => "/"
    | c :: cs => List.last cs c
    end.

(** [filepath.Abs]: [wd] is what [os.Getwd] answers, [None] when it
    fails. *)
Definition Abs (wd : option string) (p : string) : option string :=
  if IsAbs p then Some (Clean p)
  else match wd with
       | Some d => Some (Join d p)
       | None => None
       end.

End Filepath.

(** ** [pkg/pkglist]: the package finder *)

Module Pkglist.

Import Strings Filepath.

(** [type Package struct] *)
Record Package := mkPackage {
  Dir : string;
  ImportPath : string;
  Deps : list string;
  EmbedFiles : list string;
  GoFiles : list string;
  TestGoFiles : list string;
  OtherFiles : list string
}.

(** Modelled from the spec: the record the introspection call emits for
    one package (section 6: identity, directory, dependencies and the
    four file classes, plus the embedded files). The repository's
    [TestFinder_GetFileList] builds its packages with the same
    [XTestGoFiles] field. *)
Record GoListRecord := mkGoListRecord {
  jDir : string;
  jImportPath : string;
  jDeps : list string;
  jEmbedFiles : list string;
  jGoFiles : list string;
  jTestGoFiles : list string;
  jXTestGoFiles : list string;
  jOtherFiles : list string
}.

(** [decoder.Decode(&pkg)] in [FindAll]: the fields [Package] declares
    are filled in, any other field of the object is ignored. *)
Definition decodePackage (r : GoListRecord) : Package :=
  {| Dir := jDir r; ImportPath := jImportPath r; Deps := jDeps r;
     EmbedFiles := jEmbedFiles r; GoFiles := jGoFiles r;
     TestGoFiles := jTestGoFiles r; OtherFiles := jOtherFiles r |}.

(** [FindAll], after the external call: [f.packages[pkg.ImportPath] = &pkg]
    for each decoded record, in stream order. *)
Definition FindAll (out : list GoListRecord) : gmap string Package :=
  fold_left (fun m r => <[jImportPath r := decodePackage r]> m) out ∅.

(** [func (f *Finder) matchPackage(pattern, importPath, dir string) bool] *)
Definition matchPackage (pattern importPath dir : string) : bool :=
  let pattern := ToSlash pattern in
  let importPath := ToSlash importPath in
  let dir := ToSlash dir in
  if String.eqb pattern importPath then true
  else if HasSuffix pattern "/..." then
    let prefix := TrimSuffix pattern "/..." in
    if String.eqb prefix "." then true
    else if HasSuffix importPath ("/" +:+ prefix)
            || HasPrefix importPath (prefix +:+ "/") then true
    else if Contains dir ("/" +:+ prefix +:+ "/") then true
    else false
  else
    let importParts := Split importPath in
    if (0 <? length importParts)%nat
       && String.eqb (List.last importParts "") pattern then true
    else if HasSuffix importPath ("/" +:+ pattern) then true
    else if HasSuffix dir ("/" +:+ pattern) then true
    else false.

(** A Go [range] over a map visits every key once, in an order the
    language leaves open: [order] is one such visit of the set [m]. *)
Definition rangeOrder (order : list string) (m : gset string) : Prop :=
  order ≡ₚ elements m.

Definition rangeOrderMap (order : list (string * Package))
    (m : gmap string Package) : Prop :=
  order ≡ₚ map_to_list m.

(** [FilterByPatterns]: the identities of the packages some pattern
    matches. *)
Definition FilterByPatterns (order : list (string * Package))
    (patterns : list string) : gset string :=
  fold_left
    (fun keep pattern =>
       fold_left
         (fun keep (kv : string * Package) =>
            if matchPackage pattern (ImportPath kv.2) (Dir kv.2)
            then {[ImportPath kv.2]} ∪ keep else keep)
         order keep)
    patterns ∅.

(** The body of [for _, dep := range p.Deps] in [AddDependencies]. *)
Definition addDep (packages : gmap string Package)
    (st : gset string * list string) (dep : string)
  : gset string * list string :=
  if bool_decide (dep ∈ st.1) then st
  else if bool_decide (is_Some (packages !! dep))
       then ({[dep]} ∪ st.1, st.2 ++ [dep])
       else st.

(** [for i := 0; i < len(toProcess); i++ { ... }] over the growing
    work list; [fuel] bounds the number of iterations. *)
Fixpoint addDependenciesLoop (fuel : nat) (packages : gmap string Package)
    (keepPackages : gset string) (toProcess : list string) (i : nat)
  : option (gset string) :=
  match toProcess !! i with
  | None => Some keepPackages
  | Some pkg =>
      match fuel with
      | O => None
      | S fuel' =>
          let st :=
            match packages !! pkg with
            | Some p => fold_left (addDep packages) (Deps p)
                                  (keepPackages, toProcess)
            | None => (keepPackages, toProcess)
            end in
          addDependenciesLoop fuel' packages st.1 st.2 (S i)
      end
  end.

(** [func (f *Finder) AddDependencies(keepPackages map[string]struct{})]:
    [order] is the order in which the first loop ranges over
    [keepPackages]; the result is the map after the call, [None] if the
    iteration bound were not enough. *)
Definition AddDependencies (packages : gmap string Package)
    (order : list string) (keepPackages : gset string)
  : option (gset string) :=
  addDependenciesLoop (length order + size (dom packages ∖ keepPackages))
                      packages keepPackages order 0.

(** The body of the loop of [GetFileList] for one kept package. *)
Definition packageFiles (withTests : bool) (pkg : Package) : list string :=
  map (Join (Dir pkg)) (GoFiles pkg)
  ++ (if withTests
      then map (Join (Dir pkg)) (TestGoFiles pkg)
           ++ map (Join (Dir pkg)) (OtherFiles pkg)
      else List.filter (fun absPath => negb (Contains absPath "/testdata/"))
                  (map (Join (Dir pkg)) (OtherFiles pkg)))
  ++ map (Join (Dir pkg)) (EmbedFiles pkg).

(** [func (f *Finder) GetFileList(keepPackages, withTests) []string];
    [order] is the order in which the loop ranges over [f.packages]. *)
Definition GetFileList (order : list (string * Package))
    (keepPackages : gset string) (withTests : bool) : list string :=
  flat_map
    (fun kv : string * Package =>
       if bool_decide (kv.1 ∈ keepPackages)
       then packageFiles withTests kv.2 else [])
    order.

End Pkglist.

(** ** [pkg/cleaner]: the deletion engine *)

Module Cleaner.

Import Strings Filepath.

(** What [afero.Fs] stores at one path: a regular file, or a directory
    with its entries in the order [ReadDir] lists them. *)
#[warnings="-register-all"] Inductive node : Type :=
| File : node
| Directory : list (string * node) -> node.

(** The state of the file system is what it holds at the cleaner's
    [sourceDir]: [None] when nothing is there. *)
Definition fsState : Type := option node.

(** The part of the world the cleaner cannot control: the answer of
    [os.Getwd], the paths at which [Lstat], [ReadDir] and [Remove] fail,
    and the external [go mod tidy] run in a directory (whether it
    succeeds, and the tree it leaves). *)
Record Env := mkEnv {
  wd : option string;
  lstatFails : string -> bool;
  readDirFails : string -> bool;
  removeFails : string -> bool;
  goModTidy : string -> fsState -> bool * fsState
}.

(** [type Cleaner struct]; the [fs] field is the state threaded through
    the operations below. *)
Record Cleaner := mkCleaner {
  sourceDir : string;
  filesToKeep : gset string;
  protectGit : bool;
  protectGoMod : bool;
  keepTests : bool;
  dryRun : bool;
  runGoModTidy : bool
}.

(** [type Option]: a function that updates the cleaner. *)
Definition Option : Type := Cleaner -> Cleaner.

Definition WithGitProtection (protect : bool) : Option := fun c =>
  {| sourceDir := sourceDir c; filesToKeep := filesToKeep c;
     protectGit := protect; protectGoMod := protectGoMod c;
     keepTests := keepTests c; dryRun := dryRun c;
     runGoModTidy := runGoModTidy c |}.

Definition WithGoModProtection (protect : bool) : Option := fun c =>
  {| sourceDir := sourceDir c; filesToKeep := filesToKeep c;
     protectGit := protectGit c; protectGoMod := protect;
     keepTests := keepTests c; dryRun := dryRun c;
     runGoModTidy := runGoModTidy c |}.

Definition WithDryRun (dry : bool) : Option := fun c =>
  {| sourceDir := sourceDir c; filesToKeep := filesToKeep c;
     protectGit := protectGit c; protectGoMod := protectGoMod c;
     keepTests := keepTests c; dryRun := dry;
     runGoModTidy := runGoModTidy c |}.

Definition WithTestKeeping (keep : bool) : Option := fun c =>
  {| sourceDir := sourceDir c; filesToKeep := filesToKeep c;
     protectGit := protectGit c; protectGoMod := protectGoMod c;
     keepTests := keep; dryRun := dryRun c;
     runGoModTidy := runGoModTidy c |}.

Definition WithGoModTidy (enabled : bool) : Option := fun c =>
  {| sourceDir := sourceDir c; filesToKeep := filesToKeep c;
     protectGit := protectGit c; protectGoMod := protectGoMod c;
     keepTests := keepTests c; dryRun := dryRun c;
     runGoModTidy := enabled |}.

(** [func New(sourceDir string, filesToKeep []string, opts ...Option)] *)
Definition New (dir : string) (files : list string) (opts : list Option)
  : Cleaner :=
  fold_left (fun c (opt : Option) => opt c) opts
    {| sourceDir := dir; filesToKeep := list_to_set files;
       protectGit := true; protectGoMod := true; keepTests := false;
       dryRun := false; runGoModTidy := false |}.

(** The options the package provides. *)
Inductive providedOption : Option -> Prop :=
| provided_git (b : bool) : providedOption (WithGitProtection b)
| provided_gomod (b : bool) : providedOption (WithGoModProtection b)
| provided_dry (b : bool) : providedOption (WithDryRun b)
| provided_tests (b : bool) : providedOption (WithTestKeeping b)
| provided_tidy (b : bool) : providedOption (WithGoModTidy b).

(** *** First pass: classification *)

(** The decision the walk function takes for a regular file of absolute
    path [absPath]: [true] when it returns before the [append], so that
    the file is kept. *)
Definition keepFile (c : Cleaner) (absPath : string) : bool :=
  if bool_decide (absPath ∈ filesToKeep c) then true
  else if protectGit c && Contains absPath "/.git/" then true
  else
    let inTestdata := Contains absPath "/testdata/" in
    if protectGoMod c && negb inTestdata then
      let base := Base absPath in
      if String.eqb base "go.mod" || String.eqb base "go.sum"
      then true else false
    else false.

(** The function [Clean] hands to [afero.Walk], called without error on
    [path]: [None] is an error, otherwise the new [toRemove]. *)
Definition walkFn (c : Cleaner) (env : Env) (toRemove : list string)
    (path : string) (isDir : bool) : option (list string) :=
  if isDir then Some toRemove
  else
    match Abs (wd env) path with
    | None => None
    | Some absPath =>
        if keepFile c absPath then Some toRemove
        else Some (toRemove ++ [absPath])
    end.

(** [afero.Walk] below [path], with the walk function above: the node is
    visited before its entries, the entries in listing order under
    [filepath.Join(path, name)]; an [Lstat] or [ReadDir] failure is
    passed to the walk function, which returns it and ends the walk. *)
Fixpoint walk (c : Cleaner) (env : Env) (path : string) (n : node)
    (toRemove : list string) {struct n} : option (list string) :=
  if lstatFails env path then None
  else
    match n with
    | File => walkFn c env toRemove path false
    | Directory entries =>
        match walkFn c env toRemove path true with
        | None => None
        | Some acc =>
            if readDirFails env path then None
            else
              (fix walkNames (es : list (string * node))
                   (acc : list string) : option (list string) :=
                 match es with
                 | [] => Some acc
                 | (name, child) :: rest =>
                     match walk c env (Join path name) child acc with
                     | None => None
                     | Some acc' => walkNames rest acc'
                     end
                 end) entries acc
        end
    end.

(** [afero.Walk(c.fs, c.sourceDir, ...)] with [toRemove] empty at first. *)
Definition Walk (c : Cleaner) (env : Env) (fs : fsState)
  : option (list string) :=
  match fs with
  | None => None
  | Some n => walk c env (sourceDir c) n []
  end.

(** *** Second pass: removal *)

Inductive removal (A : Type) : Type :=
| NotFound : removal A
| Refused : removal A
| Removed : A -> removal A.
Arguments NotFound {A}.
Arguments Refused {A}.
Arguments Removed {A} _.

(** [Remove(target)] seen from the node stored at [path]: the node whose
    absolute path is [target] goes if it is a file or an empty
    directory, and is refused if it is a directory with entries. The
    result holds what is left at [path]. *)
Fixpoint removeAt (env : Env) (target path : string) (n : node)
    {struct n} : removal (option node) :=
  if bool_decide (Abs (wd env) path = Some target) then
    match n with
    | File => Removed None
    | Directory [] => Removed None
    | Directory (_ :: _) => Refused
    end
  else
    match n with
    | File => NotFound
    | Directory entries =>
        match
          (fix scan (es : list (string * node))
             : removal (list (string * node)) :=
             match es with
             | [] => NotFound
             | (name, child) :: rest =>
                 match removeAt env target (Join path name) child with
                 | Removed None => Removed rest
                 | Removed (Some child') => Removed ((name, child') :: rest)
                 | Refused => Refused
                 | NotFound =>
                     match scan rest with
                     | Removed rest' => Removed ((name, child) :: rest')
                     | Refused => Refused
                     | NotFound => NotFound
                     end
                 end
             end) entries
        with
        | Removed es' => Removed (Some (Directory es'))
        | Refused => Refused
        | NotFound => NotFound
        end
    end.

(** [c.fs.Remove(target)]: [None] is an error. *)
Definition fsRemove (c : Cleaner) (env : Env) (target : string)
    (fs : fsState) : option fsState :=
  if removeFails env target then None
  else
    match fs with
    | None => None
    | Some n =>
        match removeAt env target (sourceDir c) n with
        | Removed fs' => Some fs'
        | _ => None
        end
    end.

(** [for _, path := range toRemove { c.fs.Remove(path) }]: the path whose
    removal failed, if any, and the state reached. *)
Fixpoint removeAll (c : Cleaner) (env : Env) (toRemove : list string)
    (fs : fsState) : option string * fsState :=
  match toRemove with
  | [] => (None, fs)
  | path :: rest =>
      match fsRemove c env path fs with
      | None => (Some path, fs)
      | Some fs' => removeAll c env rest fs'
      end
  end.

(** *** Third pass: empty directories *)

Definition consEntry (name : string) (child : option node)
    (rest : list (string * node)) : list (string * node) :=
  match child with
  | Some n => (name, n) :: rest
  | None => rest
  end.

(** [func (c *Cleaner) removeEmptyDirs(path string) error] on the node
    stored at [path]: whether it returned [nil], and what is left at
    [path] ([None] once the directory is removed). *)
Fixpoint removeEmptyDirs (c : Cleaner) (env : Env) (path : string)
    (n : node) {struct n} : bool * option node :=
  match n with
  | File => (false, Some File)
  | Directory entries =>
      if readDirFails env path then (false, Some n)
      else
        let '(ok, entries') :=
          (fix subdirs (es : list (string * node))
             : bool * list (string * node) :=
             match es with
             | [] => (true, [])
             | (name, child) :: rest =>
                 match child with
                 | File =>
                     let '(ok, rest') := subdirs rest in
                     (ok, (name, child) :: rest')
                 | Directory _ =>
                     if protectGit c && String.eqb name ".git" then
                       let '(ok, rest') := subdirs rest in
                       (ok, (name, child) :: rest')
                     else
                       match removeEmptyDirs c env (Join path name) child
                       with
                       | (false, child') =>
                           (false, consEntry name child' rest)
                       | (true, child') =>
                           let '(ok, rest') := subdirs rest in
                           (ok, consEntry name child' rest')
                       end
                 end
             end) entries in
        if negb ok then (false, Some (Directory entries'))
        else if readDirFails env path then (false, Some (Directory entries'))
        else if (length entries' =? 0)%nat
                && negb (String.eqb path (sourceDir c)) then
          if dryRun c then (true, Some (Directory entries'))
          else if removeFails env path
               then (false, Some (Directory entries'))
               else (true, None)
        else (true, Some (Directory entries'))
  end.

(** The first loop of [removeEmptyDirs] over the entries read at [path],
    under a name of its own. *)
Definition subdirs (c : Cleaner) (env : Env) (path : string)
  : list (string * node) -> bool * list (string * node) :=
  fix subdirs (es : list (string * node)) : bool * list (string * node) :=
    match es with
    | [] => (true, [])
    | (name, child) :: rest =>
        match child with
        | File =>
            let '(ok, rest') := subdirs rest in
            (ok, (name, child) :: rest')
        | Directory _ =>
            if protectGit c && String.eqb name ".git" then
              let '(ok, rest') := subdirs rest in
              (ok, (name, child) :: rest')
            else
              match removeEmptyDirs c env (Join path name) child with
              | (false, child') => (false, consEntry name child' rest)
              | (true, child') =>
                  let '(ok, rest') := subdirs rest in
                  (ok, consEntry name child' rest')
              end
        end
    end.

(** [c.removeEmptyDirs(c.sourceDir)] *)
Definition removeEmptyDirsRoot (c : Cleaner) (env : Env) (fs : fsState)
  : bool * fsState :=
  match fs with
  | None => (false, None)
  | Some n => removeEmptyDirs c env (sourceDir c) n
  end.

(** *** [Clean] *)

Inductive CleanError : Type :=
| WalkError : CleanError
| RemovalError : string -> CleanError
| EmptyDirsError : CleanError
| TidyError : CleanError.

(** What one call of [Clean] does: the error it returns, the state it
    leaves, and the [toRemove] list of the first pass when that pass
    completed. *)
Record Outcome := mkOutcome {
  failure : option CleanError;
  fsAfter : fsState;
  classified : option (list string)
}.

(** [func (c *Cleaner) Clean() error] *)
Definition Clean (c : Cleaner) (env : Env) (fs : fsState) : Outcome :=
  match Walk c env fs with
  | None => mkOutcome (Some WalkError) fs None
  | Some toRemove =>
      let '(failed, fs2) :=
        if negb (dryRun c) then removeAll c env toRemove fs
        else (None, fs) in
      match failed with
      | Some path => mkOutcome (Some (RemovalError path)) fs2 (Some toRemove)
      | None =>
          let '(ok, fs3) := removeEmptyDirsRoot c env fs2 in
          if negb ok then mkOutcome (Some EmptyDirsError) fs3 (Some toRemove)
          else if negb (dryRun c) && runGoModTidy c then
            let '(ok', fs4) := goModTidy env (sourceDir c) fs3 in
            if negb ok' then mkOutcome (Some TidyError) fs4 (Some toRemove)
            else mkOutcome None fs4 (Some toRemove)
          else mkOutcome None fs3 (Some toRemove)
      end
  end.

(** No directory below [n] is empty, the directories named [.git] and
    what they hold apart when [protect] is set. *)
Fixpoint noEmptyDirs (protect : bool) (n : node) : bool :=
  match n with
  | File => true
  | Directory entries =>
      forallb
        (fun e : string * node =>
           match e.2 with
           | File => true
           | Directory sub =>
               (protect && String.eqb e.1 ".git")
               || (negb (length sub =? 0)%nat && noEmptyDirs protect e.2)
           end)
        entries
  end.

(** No directory strictly below [n], itself stored at [path], has the
    path [root]: the comparison [path != c.sourceDir] singles out the
    source directory only. *)
Fixpoint rootDistinctBelow (root path : string) (n : node) : bool :=
  match n with
  | File => true
  | Directory entries =>
      forallb
        (fun e : string * node =>
           match e.2 with
           | File => true
           | Directory _ =>
               negb (String.eqb (Join path e.1) root)
               && rootDistinctBelow root (Join path e.1) e.2
           end)
        entries
  end.

End Cleaner.

(** ** Notions used to state the properties *)

Module Props.

Import Pkglist.

(** The in-tree dependencies of the package of identity [p] are all in
    [keep]. *)
Definition closedAt (packages : gmap string Package) (keep : gset string)
    (p : string) : Prop :=
  forall pkg d,
    packages !! p = Some pkg -> d ∈ Deps pkg -> is_Some (packages !! d) ->
    d ∈ keep.

(** [keep] is closed under in-tree dependencies. *)
Definition closed (packages : gmap string Package) (keep : gset string)
  : Prop :=
  forall p, p ∈ keep -> closedAt packages keep p.

(** A string without the separator. *)
Fixpoint noSlash (s : string) : bool :=
  match s with
  | EmptyString => true
  | String ch s' => negb (Ascii.eqb ch "/"%char) && noSlash s'
  end.

(** A name a directory can list: not empty, not [.] or [..], and without
    separator. *)
Definition validName (name : string) : bool :=
  negb (String.eqb name "") && negb (String.eqb name ".")
  && negb (String.eqb name "..") && noSlash name.

(** Every entry below [n] has a name a directory can list. *)
Fixpoint validNames (n : Cleaner.node) : bool :=
  match n with
  | Cleaner.File => true
  | Cleaner.Directory entries =>
      forallb (fun e : string * Cleaner.node =>
                 validName e.1 && validNames e.2) entries
  end.

(** The components [filepath.Clean] keeps of a path, and the path it
    builds from them. *)
Definition cleanComps (p : string) : list string :=
  fold_left (Filepath.cleanStep (Filepath.IsAbs p)) (Strings.Split p) [].

Definition render (rooted : bool) (comps : list string) : string :=
  let out := (if rooted then "/" else "") +:+ Strings.JoinSlash comps in
  if String.eqb out "" then "." else out.

(** Component lists [filepath.Clean] can produce: names a directory can
    list, after a run of [..] which is empty for a rooted path. *)
Definition normal (rooted : bool) (comps : list string) : Prop :=
  exists (k : nat) (names : list string),
    comps = repeat ".." k ++ names
    /\ (rooted = true -> k = 0)
    /\ Forall (fun name => validName name = true) names.

(** The path reached from [root] through the names [names], one [filepath.Join]
    per name. *)
Definition reached (root : string) (names : list string) (path : string)
  : Prop :=
  match names with
  | [] => path = root
  | _ :: _ => path = render (Filepath.IsAbs root) (cleanComps root ++ names)
  end.

End Props.

(** ** Concrete inputs: the repository's tests and the scenarios of the
    specification *)

Module Scenarios.

Import Pkglist Cleaner.

(** The end-to-end scenario: [repo/pkg2] depends on [repo/pkg1] and on a
    package outside the tree. *)
Definition pkg1Record : GoListRecord :=
  {| jDir := "/repo/pkg1"; jImportPath := "repo/pkg1"; jDeps := [];
     jEmbedFiles := []; jGoFiles := ["main.go"; "util.go"];
     jTestGoFiles := []; jXTestGoFiles := []; jOtherFiles := [] |}.

Definition pkg2Record : GoListRecord :=
  {| jDir := "/repo/pkg2"; jImportPath := "repo/pkg2";
     jDeps := ["repo/pkg1"; "fmt"];
     jEmbedFiles := []; jGoFiles := ["main.go"; "util.go"];
     jTestGoFiles := []; jXTestGoFiles := []; jOtherFiles := [] |}.

Definition repoPackages : gmap string Package :=
  FindAll [pkg1Record; pkg2Record].

(** The package of the case [with XTestGoFiles] of
    [TestFinder_GetFileList]. *)
Definition xtestRecord : GoListRecord :=
  {| jDir := "/test/pkg1"; jImportPath := "pkg1"; jDeps := [];
     jEmbedFiles := []; jGoFiles := ["main.go"];
     jTestGoFiles := ["main_test.go"];
     jXTestGoFiles := ["export_test.go"]; jOtherFiles := [] |}.

Definition xtestPackages : gmap string Package := FindAll [xtestRecord].

(** The packages of the case [wildcard match with prefix] of
    [TestFinder_FilterByPatterns]. *)
Definition wildcardPackages : gmap string Package :=
  FindAll
    [mkGoListRecord "/go/src/github.com/test/repo/pkg/a"
       "github.com/test/repo/pkg/a" [] [] [] [] [] [];
     mkGoListRecord "/go/src/github.com/test/repo/pkg/b"
       "github.com/test/repo/pkg/b" [] [] [] [] [] [];
     mkGoListRecord "/go/src/github.com/test/repo/other"
       "github.com/test/repo/other" [] [] [] [] [] []].

(** The package of the case [with tests] of [TestFinder_GetFileList]. *)
Definition fixturePackages : gmap string Package :=
  FindAll
    [mkGoListRecord "/test/pkg1" "pkg1" [] [] ["main.go"] ["main_test.go"]
       [] ["testdata/fixture.json"]].

(** A world in which no file-system call fails and [go mod tidy] changes
    nothing. *)
Definition quiet : Env :=
  {| wd := Some "/"; lstatFails := fun _ => false;
     readDirFails := fun _ => false; removeFails := fun _ => false;
     goModTidy := fun _ fs => (true, fs) |}.

(** The same world, except that [/src/pkg2] cannot be read. *)
Definition pkg2Unreadable : Env :=
  {| wd := Some "/"; lstatFails := fun _ => false;
     readDirFails := fun p => String.eqb p "/src/pkg2";
     removeFails := fun _ => false;
     goModTidy := fun _ fs => (true, fs) |}.

(** The tree of [TestCleaner]. *)
Definition testTree : fsState :=
  Some (Directory
    [("pkg1", Directory [("file1.go", File); ("file2.go", File)]);
     ("pkg2", Directory [("file3.go", File); ("file4_test.go", File)])]).

Definition testCleaner : Cleaner :=
  New "/src" ["/src/pkg1/file1.go"; "/src/pkg2/file4_test.go"] [].

(** [TestCleaner]'s cleaner in dry-run mode, and a cleaner that keeps no
    path at all. *)
Definition dryCleaner : Cleaner :=
  New "/src" ["/src/pkg1/file1.go"; "/src/pkg2/file4_test.go"]
      [WithDryRun true].

Definition plainCleaner : Cleaner := New "/src" [] [].

(** A tree with nested directories that hold no file, and a [.git]
    directory. *)
Definition hollowTree : node :=
  Directory
    [(".git", Directory [("objects", Directory [])]);
     ("a", Directory [("b", Directory [("c", Directory [])])]);
     ("d", Directory [("e", Directory []); ("keep.go", File)])].

(** The directory of [TestCleaner], and what a live [Clean] leaves of it. *)
Definition testNode : node :=
  Directory
    [("pkg1", Directory [("file1.go", File); ("file2.go", File)]);
     ("pkg2", Directory [("file3.go", File); ("file4_test.go", File)])].

Definition cleanedNode : node :=
  Directory
    [("pkg1", Directory [("file1.go", File)]);
     ("pkg2", Directory [("file4_test.go", File)])].

(** What the collapse pass leaves of [hollowTree]. *)
Definition collapsedHollow : node :=
  Directory
    [(".git", Directory [("objects", Directory [])]);
     ("d", Directory [("keep.go", File)])].

(** A world in which [/src/pkg2/file3.go] cannot be removed. *)
Definition file3Locked : Env :=
  {| wd := Some "/"; lstatFails := fun _ => false;
     readDirFails := fun _ => false;
     removeFails := fun p => String.eqb p "/src/pkg2/file3.go";
     goModTidy := fun _ fs => (true, fs) |}.

(** The map order of the scenario's packages, and the kept identities. *)
Definition repoOrder : list (string * Package) := map_to_list repoPackages.

Definition repoKeep : gset string := {["repo/pkg2"]}.

(** A third package, on which nothing depends and which depends on
    nothing, and the map of the three. *)
Definition pkg3Record : GoListRecord :=
  {| jDir := "/repo/pkg3"; jImportPath := "repo/pkg3"; jDeps := [];
     jEmbedFiles := []; jGoFiles := ["extra.go"];
     jTestGoFiles := []; jXTestGoFiles := []; jOtherFiles := [] |}.

Definition triPackages : gmap string Package :=
  FindAll [pkg1Record; pkg2Record; pkg3Record].

(** The tree of the end-to-end scenario below [/repo], with the third
    package and a manifest. *)
Definition repoTree : fsState :=
  Some (Directory
    [("go.mod", File);
     ("pkg1", Directory [("main.go", File); ("util.go", File)]);
     ("pkg2", Directory [("main.go", File); ("util.go", File)]);
     ("pkg3", Directory [("extra.go", File)])]).

End Scenarios.

(** ** [FindAll] with its failures *)

Module Discovery.

Import Pkglist.

(** The two ways [FindAll] fails: the external call, or the decoding of
    one object of its output. *)
Inductive FindError : Type :=
| ListError : FindError
| DecodeError : FindError.

(** [for decoder.More() { ... }]: the objects of the stream in order,
    [None] standing for one that [decoder.Decode] rejects; the packages
    decoded before are already stored in [f.packages] when it does. *)
Fixpoint decodeLoop (stream : list (option GoListRecord))
    (packages : gmap string Package)
  : option FindError * gmap string Package :=
  match stream with
  | [] => (None, packages)
  | None :: _ => (Some DecodeError, packages)
  | Some r :: rest =>
      decodeLoop rest (<[jImportPath r := decodePackage r]> packages)
  end.

(** [func (f *Finder) FindAll() error]: [out] is what [cmd.Output()]
    gives, [None] when the command fails; the result is the error and
    [f.packages] after the call. *)
Definition FindAllFrom (out : option (list (option GoListRecord)))
    (packages : gmap string Package)
  : option FindError * gmap string Package :=
  match out with
  | None => (Some ListError, packages)
  | Some stream => decodeLoop stream packages
  end.

End Discovery.

(** ** What a tree holds *)

Module Listing.

Import Filepath Cleaner.

(** The scan of [removeAt] over the entries read at [path], under a name
    of its own. *)
Definition scan (env : Env) (target path : string)
  : list (string * node) -> removal (list (string * node)) :=
  fix scan (es : list (string * node)) : removal (list (string * node)) :=
    match es with
    | [] => NotFound
    | (name, child) :: rest =>
        match removeAt env target (Join path name) child with
        | Removed None => Removed rest
        | Removed (Some child') => Removed ((name, child') :: rest)
        | Refused => Refused
        | NotFound =>
            match scan rest with
            | Removed rest' => Removed ((name, child) :: rest')
            | Refused => Refused
            | NotFound => NotFound
            end
        end
    end.

Definition absList (env : Env) (path : string) : list string :=
  match Abs (wd env) path with
  | Some p => [p]
  | None => []
  end.

(** The absolute paths of the regular files stored at and below [path],
    in the order of the walk. *)
Fixpoint filesOf (env : Env) (path : string) (n : node) : list string :=
  match n with
  | File => absList env path
  | Directory entries =>
      flat_map (fun e : string * node => filesOf env (Join path e.1) e.2)
               entries
  end.

(** The absolute paths of all nodes stored at and below [path], files and
    directories, in the order of the walk. *)
Fixpoint pathsOf (env : Env) (path : string) (n : node) : list string :=
  absList env path
  ++ match n with
     | File => []
     | Directory entries =>
         flat_map (fun e : string * node => pathsOf env (Join path e.1) e.2)
                  entries
     end.

Definition filesOfState (env : Env) (root : string) (fs : fsState)
  : list string :=
  match fs with
  | Some n => filesOf env root n
  | None => []
  end.

Definition pathsOfState (env : Env) (root : string) (fs : fsState)
  : list string :=
  match fs with
  | Some n => pathsOf env root n
  | None => []
  end.

(** The walk below [path] meets no failure: every [Lstat] and [ReadDir]
    succeeds and every file has an absolute path. *)
Fixpoint walkable (env : Env) (path : string) (n : node) : bool :=
  negb (lstatFails env path)
  && match n with
     | File => bool_decide (is_Some (Abs (wd env) path))
     | Directory entries =>
         negb (readDirFails env path)
         && forallb (fun e : string * node =>
                       walkable env (Join path e.1) e.2) entries
     end.

(** The collapse pass has nothing left to do below [path]: the
    directories it visits can be read, and those below [path] hold an
    entry. *)
Fixpoint settled (c : Cleaner) (env : Env) (path : string) (n : node)
  : bool :=
  match n with
  | File => true
  | Directory entries =>
      negb (readDirFails env path)
      && forallb
           (fun e : string * node =>
              match e.2 with
              | File => true
              | Directory sub =>
                  (protectGit c && String.eqb e.1 ".git")
                  || (negb (length sub =? 0)%nat
                      && settled c env (Join path e.1) e.2)
              end)
           entries
  end.

End Listing.

(** ** The orchestrator *)

Module Orchestrator.

Import Pkglist Cleaner Discovery.

(** How one run of [main] ends: with the fatal error of [FindAll], or
    with what [Clean] did. *)
Inductive RunResult : Type :=
| FindFailed : FindError -> RunResult
| Cleaned : Outcome -> RunResult.

(** [func main()], from the call of [FindAll] on: [out] is the output of
    the external listing, [patterns] the trimmed patterns, the three
    orders are those in which [FilterByPatterns], [AddDependencies] and
    [GetFileList] range over their maps. [None] only if the closure bound
    were not enough. *)
Definition run (out : option (list (option GoListRecord)))
    (matchOrder : list (string * Package)) (closeOrder : list string)
    (listOrder : list (string * Package))
    (dir : string) (patterns : list string)
    (withTests protectGit protectGoMod dryRun : bool)
    (env : Env) (fs : fsState) : option RunResult :=
  match FindAllFrom out ∅ with
  | (Some e, _) => Some (FindFailed e)
  | (None, packages) =>
      let keepPackages := FilterByPatterns matchOrder patterns in
      match AddDependencies packages closeOrder keepPackages with
      | None => None
      | Some kept =>
          let allFiles := GetFileList listOrder kept withTests in
          Some (Cleaned
                  (Clean (New dir allFiles
                            [WithGitProtection protectGit;
                             WithGoModProtection protectGoMod;
                             WithTestKeeping withTests;
                             WithDryRun dryRun;
                             WithGoModTidy true])
                         env fs))
      end
  end.

(** [d] is reached from [p] through declared dependencies that are keys
    of the record map. *)
Inductive reaches (packages : gmap string Package) (p : string)
  : string -> Prop :=
| reaches_here : reaches packages p p
| reaches_dep (q d : string) (pkg : Package) :
    reaches packages p q ->
    packages !! q = Some pkg -> d ∈ Deps pkg ->
    is_Some (packages !! d) ->
    reaches packages p d.

End Orchestrator.

(** * Properties *)

(** ** The string and path functions on concrete inputs *)

Example Clean_ex1 : Filepath.Clean "/a//b/./c/../d/" = "/a/b/d".
Proof. reflexivity. Qed.
Example Clean_ex2 : Filepath.Clean "../../a/.." = "../..".
Proof. reflexivity. Qed.
Example Clean_ex3 : Filepath.Clean "/../a" = "/a".
Proof. reflexivity. Qed.
Example Join_ex1 :
  Filepath.Join "/test/pkg1" "testdata/fixture.json"
  = "/test/pkg1/testdata/fixture.json".
Proof. reflexivity. Qed.
Example Base_ex1 : Filepath.Base "/src/testdata/go.mod" = "go.mod".
Proof. reflexivity. Qed.
Example Base_ex2 : Filepath.Base "///" = "/".
Proof. reflexivity. Qed.
Example Split_ex : Strings.Split "a//b" = ["a"; ""; "b"].
Proof. reflexivity. Qed.
Example HasSuffix_ex : Strings.HasSuffix "a/b/..." "/..." = true.
Proof. reflexivity. Qed.
Example TrimSuffix_ex : Strings.TrimSuffix "a/b/..." "/..." = "a/b".
Proof. reflexivity. Qed.
Example Contains_ex : Strings.Contains "/x/.git/config" "/.git/" = true.
Proof. reflexivity. Qed.

Example match_ex1 : Pkglist.matchPackage "a/..." "a/b" "/r/a/b" = true.
Proof. reflexivity. Qed.
Example match_ex2 : Pkglist.matchPackage "a/..." "ab" "/r/ab" = false.
Proof. reflexivity. Qed.
Example match_ex3 : Pkglist.matchPackage "a/..." "ab" "/home/a/ab" = true.
Proof. reflexivity. Qed.

(** ** Facts about the string functions *)

Section StringFacts.

Import Strings.

Lemma string_length_app (a b : string) :
  String.length (a +:+ b) = String.length a + String.length b.
Proof. induction a as [|ch a IH]; simpl; [reflexivity | now rewrite IH]. Qed.

Lemma substring_full (b : string) :
  String.substring 0 (String.length b) b = b.
Proof. induction b as [|ch b IH]; simpl; [reflexivity | now rewrite IH]. Qed.

Lemma substring_app_drop (a b : string) :
  String.substring (String.length a) (String.length b) (a +:+ b) = b.
Proof.
  induction a as [|ch a IH]; simpl; [apply substring_full | exact IH].
Qed.

Lemma substring_app_take (a b : string) :
  String.substring 0 (String.length a) (a +:+ b) = a.
Proof.
  induction a as [|ch a IH]; simpl.
  - now destruct b.
  - now rewrite IH.
Qed.

Lemma HasSuffix_app (a suf : string) : HasSuffix (a +:+ suf) suf = true.
Proof.
  unfold HasSuffix. rewrite string_length_app.
  replace (String.length a + String.length suf - String.length suf)
    with (String.length a) by lia.
  rewrite substring_app_drop, String.eqb_refl.
  rewrite andb_true_r. apply Nat.leb_le. lia.
Qed.

Lemma TrimSuffix_app (a suf : string) : TrimSuffix (a +:+ suf) suf = a.
Proof.
  unfold TrimSuffix. rewrite HasSuffix_app, string_length_app.
  replace (String.length a + String.length suf - String.length suf)
    with (String.length a) by lia.
  apply substring_app_take.
Qed.

Lemma HasSuffix_longer (s suf : string) :
  String.length s < String.length suf -> HasSuffix s suf = false.
Proof.
  intros Hlt. unfold HasSuffix.
  replace (String.length suf <=? String.length s)%nat with false; [easy|].
  symmetry. apply Nat.leb_gt. exact Hlt.
Qed.

Lemma prefix_length (pre s : string) :
  String.prefix pre s = true -> String.length pre <= String.length s.
Proof.
  revert s. induction pre as [|ch pre IH]; intros s H; simpl; [lia|].
  destruct s as [|ch' s]; simpl in *; [discriminate|].
  destruct (ascii_dec ch ch'); [|discriminate].
  specialize (IH _ H). lia.
Qed.

Lemma HasPrefix_longer (s pre : string) :
  String.length s < String.length pre -> HasPrefix s pre = false.
Proof.
  intros Hlt. unfold HasPrefix.
  destruct (String.prefix pre s) eqn:E; [|reflexivity].
  apply prefix_length in E. lia.
Qed.

Lemma eqb_app_longer (a b : string) :
  0 < String.length b -> String.eqb (a +:+ b) a = false.
Proof.
  intros Hb. apply String.eqb_neq. intros E.
  apply (f_equal String.length) in E. rewrite string_length_app in E. lia.
Qed.

End StringFacts.

(** ** Pattern matching *)

Section Matching.

Import Strings Pkglist.

(** C10. For a prefix [p] other than the token [.], the pattern [p/...]
    matches the package whose identity is [p] itself exactly when the
    package's directory contains [/p/]: without that directory fallback
    the package named by the prefix is not matched. *)
Theorem wildcard_skips_own_prefix (p dir : string) :
  p <> "." ->
  matchPackage (p +:+ "/...") p dir = Contains dir ("/" +:+ p +:+ "/").
Proof.
  intros Hdot. unfold matchPackage, Filepath.ToSlash.
  rewrite eqb_app_longer by (simpl; lia).
  rewrite HasSuffix_app, TrimSuffix_app.
  destruct (String.eqb p ".") eqn:E.
  { apply String.eqb_eq in E. contradiction. }
  rewrite HasSuffix_longer by (rewrite string_length_app; simpl; lia).
  rewrite HasPrefix_longer by (rewrite string_length_app; simpl; lia).
  simpl. now destruct (Contains dir _).
Qed.

Lemma wildcard_skips_own_prefix_witness :
  matchPackage ("repo/pkg" +:+ "/...") "repo/pkg" "/go/src/repo/pkg"
  = Contains "/go/src/repo/pkg" ("/" +:+ "repo/pkg" +:+ "/").
Proof. apply wildcard_skips_own_prefix. discriminate. Defined.

(** C4 as stated fails: the pattern [a/...] does match a package of
    identity [ab] when the package lives below a directory named [a]. *)
Lemma wildcard_matches_ab_below_a :
  matchPackage "a/..." "ab" "/home/a/ab" = true.
Proof. reflexivity. Qed.

(** C4, amended. The pattern [a/...] matches identity [a/b] whatever the
    directory; it matches identity [ab] exactly when the directory
    contains [/a/]; a pattern without the wildcard suffix matches every
    identity that ends in [/pattern], and every package whose directory
    ends in [/pattern] whatever its identity. *)
Theorem matching_precedence (pattern x importPath d dir : string) :
  HasSuffix pattern "/..." = false ->
  matchPackage "a/..." "a/b" dir = true
  /\ matchPackage "a/..." "ab" dir = Contains dir "/a/"
  /\ matchPackage pattern (x +:+ "/" +:+ pattern) dir = true
  /\ matchPackage pattern importPath (d +:+ "/" +:+ pattern) = true.
Proof.
  intros Hplain. split; [|split; [|split]].
  - reflexivity.
  - unfold matchPackage, Filepath.ToSlash. simpl.
    change (TrimSuffix "a/..." "/...") with "a".
    now destruct (Contains dir _).
  - unfold matchPackage, Filepath.ToSlash. rewrite Hplain.
    replace (x +:+ "/" +:+ pattern) with (x +:+ ("/" +:+ pattern))
      by reflexivity.
    rewrite HasSuffix_app.
    destruct (String.eqb pattern _); [reflexivity|].
    now destruct (_ && _).
  - unfold matchPackage, Filepath.ToSlash. rewrite Hplain.
    replace (d +:+ "/" +:+ pattern) with (d +:+ ("/" +:+ pattern))
      by reflexivity.
    rewrite HasSuffix_app.
    destruct (String.eqb pattern importPath); [reflexivity|].
    destruct (_ && _); [reflexivity|].
    now destruct (HasSuffix importPath _).
Qed.

Lemma matching_precedence_witness :
  matchPackage "a/..." "a/b" "/r/x" = true
  /\ matchPackage "a/..." "ab" "/r/x" = Contains "/r/x" "/a/"
  /\ matchPackage "pkg1" ("github.com/test/repo" +:+ "/" +:+ "pkg1") "/r/x"
     = true
  /\ matchPackage "pkg1" "example.org/other" ("/go/src" +:+ "/" +:+ "pkg1")
     = true.
Proof.
  apply (matching_precedence "pkg1" "github.com/test/repo"
           "example.org/other" "/go/src" "/r/x").
  reflexivity.
Defined.

End Matching.

(** ** Dependency closure *)

Section Closure.

Import Pkglist Props.

Variable packages : gmap string Package.

Lemma closedAt_mono (keep keep' : gset string) (p : string) :
  keep ⊆ keep' -> closedAt packages keep p -> closedAt packages keep' p.
Proof. intros Hsub Hc pkg d H1 H2 H3. apply Hsub. eapply Hc; eauto. Qed.

(** What the loop over the dependencies of one package does to the keep
    set and to the work list: it appends the in-tree dependencies that
    were not kept yet, each once. *)
Lemma addDep_fold (deps : list string) (keep : gset string)
    (toProcess : list string) :
  exists new : list string,
    fold_left (addDep packages) deps (keep, toProcess)
    = (keep ∪ list_to_set new, toProcess ++ new)
    /\ NoDup new
    /\ (forall x, x ∈ new ->
          (x ∉ keep) /\ is_Some (packages !! x) /\ x ∈ deps)
    /\ (forall d, d ∈ deps -> is_Some (packages !! d) ->
          d ∈ keep ∪ list_to_set new).
Proof.
  revert keep toProcess.
  induction deps as [|dep deps IH]; intros keep toProcess.
  - exists []. simpl. rewrite app_nil_r.
    split; [f_equal; set_solver|]. split; [constructor|].
    split; [intros x Hx; inversion Hx | intros d Hd; inversion Hd].
  - simpl. unfold addDep at 2. simpl.
    destruct (bool_decide (dep ∈ keep)) eqn:Ekeep.
    + apply bool_decide_eq_true in Ekeep.
      destruct (IH keep toProcess) as (new & Heq & Hnd & Hnew & Hdeps).
      exists new. split; [exact Heq|]. split; [exact Hnd|]. split.
      * intros x Hx. destruct (Hnew x Hx) as (? & ? & ?).
        repeat split; auto. now right.
      * intros d Hd Hin. apply elem_of_cons in Hd as [->|Hd]; [set_solver|].
        now apply Hdeps.
    + apply bool_decide_eq_false in Ekeep.
      destruct (bool_decide (is_Some (packages !! dep))) eqn:Erepo.
      * apply bool_decide_eq_true in Erepo.
        destruct (IH ({[dep]} ∪ keep) (toProcess ++ [dep]))
          as (new & Heq & Hnd & Hnew & Hdeps).
        exists (dep :: new). split.
        { rewrite Heq. f_equal; [set_solver | now rewrite <- app_assoc]. }
        split.
        { constructor; [|exact Hnd]. intros Hin.
          destruct (Hnew dep Hin) as (Hnot & _). set_solver. }
        split.
        { intros x Hx. apply elem_of_cons in Hx as [->|Hx].
          - repeat split; auto. now left.
          - destruct (Hnew x Hx) as (Hnot & ? & ?).
            repeat split; auto; [set_solver | now right]. }
        intros d Hd Hin. apply elem_of_cons in Hd as [->|Hd]; [set_solver|].
        specialize (Hdeps d Hd Hin). set_solver.
      * apply bool_decide_eq_false in Erepo.
        destruct (IH keep toProcess) as (new & Heq & Hnd & Hnew & Hdeps).
        exists new. split; [exact Heq|]. split; [exact Hnd|]. split.
        { intros x Hx. destruct (Hnew x Hx) as (? & ? & ?).
          repeat split; auto. now right. }
        intros d Hd Hin. apply elem_of_cons in Hd as [->|Hd].
        { contradiction. }
        now apply Hdeps.
Qed.

(** The number of packages not kept yet drops by the number of entries
    appended to the work list. *)
Lemma new_entries_size (keep : gset string) (new : list string) :
  NoDup new ->
  (forall x, x ∈ new -> (x ∉ keep) /\ is_Some (packages !! x)) ->
  size (dom packages ∖ (keep ∪ list_to_set new)) + length new
  = size (dom packages ∖ keep).
Proof.
  intros Hnd Hnew.
  assert (Hsub : (list_to_set new : gset string) ⊆ dom packages ∖ keep).
  { intros x Hx. apply elem_of_list_to_set in Hx.
    destruct (Hnew x Hx) as [Hnot Hin].
    apply elem_of_difference. split; [now apply elem_of_dom | exact Hnot]. }
  replace (dom packages ∖ (keep ∪ list_to_set new))
    with ((dom packages ∖ keep) ∖ list_to_set new) by set_solver.
  rewrite size_difference by exact Hsub.
  rewrite size_list_to_set by exact Hnd.
  apply subseteq_size in Hsub. rewrite size_list_to_set in Hsub by exact Hnd.
  lia.
Qed.

(** The work-list loop, started anywhere: it ends within the bound, and
    the set it leaves contains the one it started from, is closed, and
    has gained in-tree identities only. *)
Lemma loop_closes (fuel : nat) :
  forall (keep : gset string) (toProcess : list string) (i : nat),
    (length toProcess - i) + size (dom packages ∖ keep) <= fuel ->
    (forall x, x ∈ keep -> x ∈ toProcess) ->
    (forall j p, j < i -> toProcess !! j = Some p ->
                 closedAt packages keep p) ->
    exists keep' : gset string,
      addDependenciesLoop fuel packages keep toProcess i = Some keep'
      /\ keep ⊆ keep'
      /\ closed packages keep'
      /\ (forall x, x ∈ keep' -> x ∈ keep \/ is_Some (packages !! x)).
Proof.
  assert (Hend : forall (keep : gset string) (toProcess : list string) i,
             toProcess !! i = None ->
             (forall x, x ∈ keep -> x ∈ toProcess) ->
             (forall j p, j < i -> toProcess !! j = Some p ->
                          closedAt packages keep p) ->
             closed packages keep).
  { intros keep toProcess i Hi Hall Hdone p Hp.
    apply Hall, list_elem_of_lookup in Hp as [j Hj].
    apply (Hdone j p); [|exact Hj].
    apply lookup_lt_Some in Hj. apply lookup_ge_None in Hi. lia. }
  induction fuel as [|fuel IH]; intros keep toProcess i Hfuel Hall Hdone;
    simpl; destruct (toProcess !! i) as [pkg|] eqn:Ei;
    try (exists keep; split; [reflexivity|]; split; [set_solver|];
         split; [eapply Hend; eauto | auto]).
  - apply lookup_lt_Some in Ei. lia.
  - pose proof (lookup_lt_Some _ _ _ Ei) as Hlt.
    destruct (packages !! pkg) as [p|] eqn:Ep.
    + destruct (addDep_fold (Deps p) keep toProcess)
        as (new & Heq & Hnd & Hnew & Hdeps).
      rewrite Heq. simpl.
      destruct (IH (keep ∪ list_to_set new) (toProcess ++ new) (S i))
        as (keep' & Hrun & Hsub & Hclosed & Horigin).
      * pose proof (new_entries_size keep new Hnd) as Hsize.
        rewrite length_app.
        assert (forall x, x ∈ new -> (x ∉ keep) /\ is_Some (packages !! x))
          as Hnew' by (intros x Hx; destruct (Hnew x Hx) as (?&?&?); auto).
        specialize (Hsize Hnew'). lia.
      * intros x Hx. apply elem_of_union in Hx as [Hx|Hx].
        -- apply elem_of_app. left. now apply Hall.
        -- apply elem_of_app. right. now apply elem_of_list_to_set in Hx.
      * intros j q Hj Hq.
        destruct (decide (j = i)) as [->|Hne].
        -- rewrite lookup_app_l in Hq by exact Hlt.
           rewrite Ei in Hq. injection Hq as <-.
           intros pkg' d Hpkg' Hd Hin. rewrite Ep in Hpkg'.
           injection Hpkg' as <-. now apply Hdeps.
        -- rewrite lookup_app_l in Hq by lia.
           eapply closedAt_mono; [|apply (Hdone j q); [lia|exact Hq]].
           set_solver.
      * exists keep'. split; [exact Hrun|]. split; [set_solver|].
        split; [exact Hclosed|].
        intros x Hx. destruct (Horigin x Hx) as [Hin|Hin]; [|now right].
        apply elem_of_union in Hin as [Hin|Hin]; [now left|right].
        apply elem_of_list_to_set in Hin.
        now destruct (Hnew x Hin) as (_ & ? & _).
    + simpl. apply IH.
      * lia.
      * exact Hall.
      * intros j q Hj Hq.
        destruct (decide (j = i)) as [->|Hne].
        -- rewrite Ei in Hq. injection Hq as <-.
           intros pkg' d Hpkg'. rewrite Ep in Hpkg'. discriminate.
        -- apply (Hdone j q); [lia|exact Hq].
Qed.

(** On a closed keep set the loop appends nothing and leaves the set as
    it is. *)
Lemma loop_on_closed (fuel : nat) :
  forall (keep : gset string) (toProcess : list string) (i : nat),
    closed packages keep ->
    (forall x, x ∈ toProcess -> x ∈ keep) ->
    length toProcess - i <= fuel ->
    addDependenciesLoop fuel packages keep toProcess i = Some keep.
Proof.
  induction fuel as [|fuel IH]; intros keep toProcess i Hclosed Hall Hfuel;
    simpl; destruct (toProcess !! i) as [pkg|] eqn:Ei; try reflexivity.
  - apply lookup_lt_Some in Ei. lia.
  - pose proof (lookup_lt_Some _ _ _ Ei) as Hlt.
    assert (Hkept : pkg ∈ keep).
    { apply Hall, list_elem_of_lookup. eauto. }
    destruct (packages !! pkg) as [p|] eqn:Ep; simpl.
    + destruct (addDep_fold (Deps p) keep toProcess)
        as (new & Heq & Hnd & Hnew & Hdeps).
      assert (new = []) as ->.
      { destruct new as [|x new]; [reflexivity|exfalso].
        destruct (Hnew x) as (Hnot & Hin & Hdep); [now left|].
        apply Hnot. exact (Hclosed pkg Hkept p x Ep Hdep Hin). }
      rewrite Heq. simpl. rewrite app_nil_r, union_empty_r_L.
      apply IH; [exact Hclosed | exact Hall | lia].
    + apply IH; [exact Hclosed | exact Hall | lia].
Qed.

Lemma rangeOrder_elem (order : list string) (keep : gset string) (x : string) :
  rangeOrder order keep -> (x ∈ order <-> x ∈ keep).
Proof.
  unfold rangeOrder. intros Hperm. rewrite Hperm. apply elem_of_elements.
Qed.

(** C6. Closure returns; the set it leaves contains the set it was given;
    every dependency of a kept package that is a key of the record map is
    kept; and an identity that is not a key of the record map is in the
    result only if it was in the set given. *)
Theorem closure_monotone_complete (order : list string)
    (keep : gset string) :
  rangeOrder order keep ->
  exists kept : gset string,
    AddDependencies packages order keep = Some kept
    /\ keep ⊆ kept
    /\ (forall p pkg d,
          p ∈ kept -> packages !! p = Some pkg -> d ∈ Deps pkg ->
          is_Some (packages !! d) -> d ∈ kept)
    /\ (forall d, packages !! d = None -> d ∈ kept -> d ∈ keep).
Proof.
  intros Horder. unfold AddDependencies.
  destruct (loop_closes (length order + size (dom packages ∖ keep))
              keep order 0)
    as (kept & Hrun & Hsub & Hclosed & Horigin).
  - lia.
  - intros x Hx. now apply (rangeOrder_elem order keep x Horder).
  - intros j p Hj. lia.
  - exists kept. split; [exact Hrun|]. split; [exact Hsub|]. split.
    + intros p pkg d Hp Hpkg Hd Hin. exact (Hclosed p Hp pkg d Hpkg Hd Hin).
    + intros d Hnone Hd. destruct (Horigin d Hd) as [Hin|[pkg Hsome]];
        [exact Hin | congruence].
Qed.

(** C5. Closure returns, and closure of the set it returned returns that
    same set, in whatever order the second call ranges over it. *)
Theorem closure_idempotent (order : list string) (keep : gset string) :
  rangeOrder order keep ->
  exists once : gset string,
    AddDependencies packages order keep = Some once
    /\ (forall order' : list string,
          rangeOrder order' once ->
          AddDependencies packages order' once = Some once).
Proof.
  intros Horder. unfold AddDependencies at 1.
  destruct (loop_closes (length order + size (dom packages ∖ keep))
              keep order 0)
    as (once & Hrun & Hsub & Hclosed & Horigin).
  - lia.
  - intros x Hx. now apply (rangeOrder_elem order keep x Horder).
  - intros j p Hj. lia.
  - exists once. split; [exact Hrun|]. intros order' Horder'.
    apply loop_on_closed; [exact Hclosed | | lia].
    intros x Hx. now apply (rangeOrder_elem order' once x Horder').
Qed.

End Closure.

Module ClosureExamples.
Import Pkglist Scenarios.

Example closure_pulls_in_pkg1 :
  AddDependencies repoPackages ["repo/pkg2"] {["repo/pkg2"]}
  = Some {["repo/pkg1"; "repo/pkg2"]}.
Proof. vm_compute. reflexivity. Qed.

Example closure_twice :
  AddDependencies repoPackages ["repo/pkg1"; "repo/pkg2"]
    {["repo/pkg1"; "repo/pkg2"]}
  = Some {["repo/pkg1"; "repo/pkg2"]}.
Proof. vm_compute. reflexivity. Qed.

Lemma closure_monotone_complete_witness :
  exists kept : gset string,
    AddDependencies repoPackages ["repo/pkg2"] {["repo/pkg2"]} = Some kept
    /\ {["repo/pkg2"]} ⊆ kept
    /\ (forall p pkg d,
          p ∈ kept -> repoPackages !! p = Some pkg -> d ∈ Deps pkg ->
          is_Some (repoPackages !! d) -> d ∈ kept)
    /\ (forall d, repoPackages !! d = None -> d ∈ kept ->
                  d ∈ ({["repo/pkg2"]} : gset string)).
Proof.
  apply closure_monotone_complete.
  unfold rangeOrder. now rewrite elements_singleton.
Defined.

Lemma closure_idempotent_witness :
  exists once : gset string,
    AddDependencies repoPackages ["repo/pkg2"] {["repo/pkg2"]} = Some once
    /\ (forall order' : list string,
          rangeOrder order' once ->
          AddDependencies repoPackages order' once = Some once).
Proof.
  apply closure_idempotent.
  unfold rangeOrder. now rewrite elements_singleton.
Defined.

End ClosureExamples.

(** ** File projection *)

Section Projection.

Import Pkglist Scenarios.

(** With tests requested, every primary, test, other and embedded file
    the record of a kept package lists is projected. *)
Lemma projection_keeps_listed_files (packages : gmap string Package)
    (order : list (string * Package)) (keep : gset string)
    (pkgPath : string) (pkg : Package) (f : string) :
  rangeOrderMap order packages ->
  packages !! pkgPath = Some pkg -> pkgPath ∈ keep ->
  f ∈ GoFiles pkg ++ TestGoFiles pkg ++ OtherFiles pkg ++ EmbedFiles pkg ->
  Filepath.Join (Dir pkg) f ∈ GetFileList order keep true.
Proof.
  intros Horder Hpkg Hkeep Hf. unfold GetFileList.
  assert (Hin : (pkgPath, pkg) ∈ order).
  { unfold rangeOrderMap in Horder. rewrite Horder.
    now apply elem_of_map_to_list. }
  apply list_elem_of_In, in_flat_map.
  exists (pkgPath, pkg). split; [now apply list_elem_of_In|]. simpl.
  rewrite bool_decide_eq_true_2 by exact Hkeep.
  apply list_elem_of_In. unfold packageFiles.
  rewrite !elem_of_app in Hf. rewrite !elem_of_app.
  destruct Hf as [Hf|[Hf|[Hf|Hf]]];
    [left | right; left; left | right; left; right | right; right];
    now apply list_elem_of_fmap_2.
Qed.

(** Without tests, test files are left out and so are the other files
    below a [testdata] directory. *)
Lemma projection_without_tests (pkg : Package) (path : string) :
  path ∈ packageFiles false pkg ->
  path ∈ map (Filepath.Join (Dir pkg)) (GoFiles pkg)
  \/ (path ∈ map (Filepath.Join (Dir pkg)) (OtherFiles pkg)
      /\ Strings.Contains path "/testdata/" = false)
  \/ path ∈ map (Filepath.Join (Dir pkg)) (EmbedFiles pkg).
Proof.
  unfold packageFiles. rewrite !elem_of_app.
  intros [H|[H|H]]; [left; exact H | right; left | right; right; exact H].
  apply list_elem_of_In, filter_In in H as [H Hout].
  split; [now apply list_elem_of_In | now apply negb_true_iff].
Qed.

(** C1 at the package of the repository's test case [with XTestGoFiles]:
    with tests requested the projection holds the primary and the test
    file, and not the external-test file [export_test.go] the test
    expects. *)
Theorem external_test_files_not_projected :
  GetFileList (map_to_list xtestPackages) {["pkg1"]} true
  = ["/test/pkg1/main.go"; "/test/pkg1/main_test.go"]
  /\ "/test/pkg1/export_test.go"
     ∉ GetFileList (map_to_list xtestPackages) {["pkg1"]} true.
Proof.
  assert (E : GetFileList (map_to_list xtestPackages) {["pkg1"]} true
              = ["/test/pkg1/main.go"; "/test/pkg1/main_test.go"])
    by (vm_compute; reflexivity).
  split; [exact E|]. rewrite E. intros H.
  repeat (apply elem_of_cons in H as [H|H]; [discriminate|]).
  inversion H.
Qed.

End Projection.

(** ** Trees *)

Section Trees.

Import Cleaner.

(** Induction on a tree, with the hypothesis for every entry of a
    directory. *)
Lemma node_ind2 (P : node -> Prop) :
  P File ->
  (forall es, Forall (fun e : string * node => P e.2) es ->
              P (Directory es)) ->
  forall n, P n.
Proof.
  intros HF HD. fix IH 1. intros [|es]; [exact HF|]. apply HD.
  induction es as [|[name child] es IHes]; constructor;
    [apply IH | exact IHes].
Qed.

End Trees.

(** ** Paths below the source directory *)

Section PathFacts.

Import Strings Props Cleaner Filepath.

Lemma SplitOn_nonempty (sep : ascii) (s : string) : SplitOn sep s <> [].
Proof.
  induction s as [|ch s IH]; simpl; [discriminate|].
  destruct (Ascii.eqb ch sep); [discriminate|].
  now destruct (SplitOn sep s).
Qed.

Lemma SplitOn_app (sep : ascii) (a b : string) :
  SplitOn sep (a +:+ String sep b) = SplitOn sep a ++ SplitOn sep b.
Proof.
  induction a as [|ch a IH]; simpl.
  - now rewrite Ascii.eqb_refl.
  - destruct (Ascii.eqb ch sep); [now rewrite IH|].
    rewrite IH. pose proof (SplitOn_nonempty sep a) as Hne.
    now destruct (SplitOn sep a).
Qed.

Lemma Split_noSlash (s : string) : noSlash s = true -> Split s = [s].
Proof.
  unfold Split. induction s as [|ch s IH]; simpl; [reflexivity|].
  intros H. apply andb_prop in H as [Hch Hs].
  apply negb_true_iff in Hch. rewrite Hch, (IH Hs). reflexivity.
Qed.

Lemma Split_JoinSlash (c : string) (cs : list string) :
  Forall (fun x => noSlash x = true) (c :: cs) ->
  Split (JoinSlash (c :: cs)) = c :: cs.
Proof.
  revert c. induction cs as [|c' cs IH]; intros c Hall.
  - simpl. apply Split_noSlash. now inversion Hall.
  - change (JoinSlash (c :: c' :: cs))
      with (c +:+ String "/"%char (JoinSlash (c' :: cs))).
    unfold Split in *. rewrite SplitOn_app.
    inversion Hall as [|? ? Hc Hrest]; subst.
    rewrite (IH c' Hrest).
    fold (Split c). now rewrite (Split_noSlash c Hc).
Qed.

Lemma validName_noSlash (name : string) :
  validName name = true -> noSlash name = true.
Proof. unfold validName. intros H. now apply andb_prop in H as [_ H]. Qed.

Lemma cleanStep_name (rooted : bool) (acc : list string) (name : string) :
  validName name = true -> cleanStep rooted acc name = acc ++ [name].
Proof.
  unfold validName, cleanStep. intros H.
  apply andb_prop in H as [H _]. apply andb_prop in H as [H Hdd].
  apply andb_prop in H as [He Hd].
  apply negb_true_iff in He, Hd, Hdd. now rewrite He, Hd, Hdd.
Qed.

Lemma fold_cleanStep_names (rooted : bool) (names acc : list string) :
  Forall (fun name => validName name = true) names ->
  fold_left (cleanStep rooted) names acc = acc ++ names.
Proof.
  revert acc. induction names as [|name names IH]; intros acc Hall; simpl.
  - now rewrite app_nil_r.
  - inversion Hall as [|? ? Hname Hrest]; subst.
    rewrite cleanStep_name by exact Hname.
    rewrite (IH _ Hrest), <- app_assoc. reflexivity.
Qed.

Lemma fold_cleanStep_dotdots (k : nat) (j : nat) :
  fold_left (cleanStep false) (repeat ".." k) (repeat ".." j)
  = repeat ".." (j + k).
Proof.
  revert j. induction k as [|k IH]; intros j; simpl.
  - now rewrite Nat.add_0_r.
  - replace (cleanStep false (repeat ".." j) "..") with (repeat ".." (S j)).
    + rewrite IH. f_equal. lia.
    + unfold cleanStep. simpl.
      destruct j as [|j]; [reflexivity|].
      replace (repeat ".." (S j)) with (repeat ".." j ++ [".."]) at 2
        by (now rewrite <- repeat_cons).
      rewrite rev_app_distr. simpl.
      now rewrite repeat_cons.
Qed.

Lemma fold_cleanStep_normal (rooted : bool) (comps : list string) :
  normal rooted comps -> fold_left (cleanStep rooted) comps [] = comps.
Proof.
  intros (k & names & -> & Hk & Hnames). rewrite fold_left_app.
  destruct rooted.
  - rewrite (Hk eq_refl). simpl. now apply fold_cleanStep_names.
  - pose proof (fold_cleanStep_dotdots k 0) as Hrun. simpl in Hrun.
    rewrite Hrun. now apply fold_cleanStep_names.
Qed.

Lemma rev_dotdots (k : nat) : rev (repeat ".." k) = repeat ".." k.
Proof.
  induction k as [|k IH]; [reflexivity|].
  simpl. rewrite IH. now rewrite <- repeat_cons.
Qed.

Lemma normal_snoc (rooted : bool) (comps : list string) (name : string) :
  normal rooted comps -> validName name = true ->
  normal rooted (comps ++ [name]).
Proof.
  intros (k & names & -> & Hk & Hnames) Hname.
  exists k, (names ++ [name]). split; [now rewrite app_assoc|].
  split; [exact Hk|]. apply Forall_app. split; [exact Hnames|].
  now constructor.
Qed.

Lemma normal_app (rooted : bool) (comps names : list string) :
  normal rooted comps -> Forall (fun name => validName name = true) names ->
  normal rooted (comps ++ names).
Proof.
  intros (k & names0 & -> & Hk & Hnames0) Hnames.
  exists k, (names0 ++ names). split; [now rewrite app_assoc|].
  split; [exact Hk|]. apply Forall_app. now split.
Qed.

(** One step of the clean-up keeps the component list normal. *)
Lemma cleanStep_normal (rooted : bool) (acc : list string) (c : string) :
  noSlash c = true -> normal rooted acc -> normal rooted (cleanStep rooted acc c).
Proof.
  intros Hc Hacc. unfold cleanStep.
  destruct (String.eqb c "") eqn:Ee; [exact Hacc|].
  destruct (String.eqb c ".") eqn:Ed; [exact Hacc|]. simpl.
  destruct (String.eqb c "..") eqn:Edd.
  - destruct Hacc as (k & names & -> & Hk & Hnames).
    destruct names as [|x names _] using rev_ind.
    + rewrite app_nil_r, rev_dotdots.
      destruct k as [|k]; simpl.
      * destruct rooted.
        -- exists 0, []. now repeat split.
        -- exists 1, []. repeat split; [discriminate | constructor].
      * exists (S (S k)), []. rewrite !app_nil_r. split.
        -- change (".." :: repeat ".." k) with (repeat ".." (S k)).
           now rewrite <- repeat_cons.
        -- split; [|constructor]. intros ->. now specialize (Hk eq_refl).
    + apply Forall_app in Hnames as [Hnames Hx].
      inversion Hx as [|? ? Hvalid _]; subst.
      rewrite app_assoc, rev_app_distr. simpl.
      assert (String.eqb x ".." = false) as ->.
      { unfold validName in Hvalid.
        apply andb_prop in Hvalid as [Hvalid _].
        apply andb_prop in Hvalid as [_ Hvalid].
        now apply negb_true_iff in Hvalid. }
      rewrite rev_involutive. now exists k, names.
  - apply normal_snoc; [exact Hacc|]. unfold validName.
    now rewrite Ee, Ed, Edd, Hc.
Qed.

Lemma Split_all_noSlash (s : string) :
  Forall (fun x => noSlash x = true) (Split s).
Proof.
  unfold Split. induction s as [|ch s IH]; simpl.
  - now repeat constructor.
  - destruct (Ascii.eqb ch "/") eqn:Ech.
    + now constructor.
    + pose proof (SplitOn_nonempty "/" s) as Hne.
      destruct (SplitOn "/" s) as [|w ws]; [contradiction|].
      inversion IH as [|? ? Hw Hws]; subst.
      constructor; [|exact Hws]. simpl. now rewrite Ech, Hw.
Qed.

Lemma cleanComps_normal (p : string) : normal (IsAbs p) (cleanComps p).
Proof.
  unfold cleanComps.
  assert (Hgen : forall l acc,
             Forall (fun x => noSlash x = true) l ->
             normal (IsAbs p) acc ->
             normal (IsAbs p) (fold_left (cleanStep (IsAbs p)) l acc)).
  { induction l as [|c l IH]; intros acc Hl Hacc; [exact Hacc|].
    inversion Hl as [|? ? Hc Hrest]; subst. simpl.
    apply IH; [exact Hrest|]. now apply cleanStep_normal. }
  apply Hgen; [apply Split_all_noSlash|].
  exists 0, []. repeat split; constructor.
Qed.

Lemma normal_all_noSlash (rooted : bool) (comps : list string) :
  normal rooted comps -> Forall (fun x => noSlash x = true) comps.
Proof.
  intros (k & names & -> & _ & Hnames). apply Forall_app. split.
  - apply Forall_forall. intros x Hx.
    apply list_elem_of_In, repeat_spec in Hx. now subst.
  - eapply Forall_impl; [exact Hnames|]. apply validName_noSlash.
Qed.

Lemma normal_head (rooted : bool) (c : string) (comps : list string) :
  normal rooted (c :: comps) ->
  exists ch rest, c = String ch rest /\ Ascii.eqb ch "/" = false.
Proof.
  intros (k & names & Heq & _ & Hnames).
  destruct k as [|k]; simpl in Heq.
  - destruct names as [|name names]; [discriminate|].
    injection Heq as <- _. inversion Hnames as [|? ? Hvalid _]; subst.
    unfold validName in Hvalid. destruct c as [|ch rest]; [discriminate|].
    exists ch, rest. split; [reflexivity|].
    apply andb_prop in Hvalid as [_ Hvalid]. simpl in Hvalid.
    apply andb_prop in Hvalid as [Hvalid _]. now apply negb_true_iff.
  - injection Heq as -> _. now exists "."%char, ".".
Qed.

Lemma JoinSlash_head (ch : ascii) (rest : string) (comps : list string) :
  exists tail, JoinSlash (String ch rest :: comps) = String ch tail.
Proof. destruct comps; simpl; eauto. Qed.

Lemma IsAbs_String (ch : ascii) (rest : string) :
  IsAbs (String ch rest) = Ascii.eqb ch "/".
Proof.
  unfold IsAbs, HasPrefix.
  change (String.prefix "/" (String ch rest))
    with (if ascii_dec "/" ch then String.prefix "" rest else false).
  destruct (ascii_dec "/" ch) as [<-|Hne].
  - rewrite Ascii.eqb_refl. now destruct rest.
  - symmetry. apply Ascii.eqb_neq. congruence.
Qed.

Lemma IsAbs_render (rooted : bool) (comps : list string) :
  normal rooted comps -> IsAbs (render rooted comps) = rooted.
Proof.
  intros Hnormal. unfold render. destruct rooted.
  { change ("/" +:+ JoinSlash comps) with (String "/"%char (JoinSlash comps)).
    change (String.eqb (String "/"%char (JoinSlash comps)) "") with false.
    cbv iota. now rewrite IsAbs_String. }
  destruct comps as [|c comps]; [reflexivity|].
  destruct (normal_head _ _ _ Hnormal) as (ch & rest & -> & Hch).
  destruct (JoinSlash_head ch rest comps) as [tail ->].
  change ("" +:+ String ch tail) with (String ch tail).
  change (String.eqb (String ch tail) "") with false.
  cbv iota. now rewrite IsAbs_String.
Qed.

(** Cleaning a path built from a normal component list gives the list
    back. *)
Lemma cleanComps_render (rooted : bool) (comps : list string) :
  normal rooted comps -> cleanComps (render rooted comps) = comps.
Proof.
  intros Hnormal. unfold cleanComps.
  rewrite (IsAbs_render _ _ Hnormal).
  destruct comps as [|c comps]; [now destruct rooted|].
  pose proof (normal_all_noSlash _ _ Hnormal) as Hall.
  destruct (normal_head _ _ _ Hnormal) as (ch & rest & -> & Hch).
  unfold render. destruct rooted.
  - change ("/" +:+ JoinSlash (String ch rest :: comps))
      with ("" +:+ String "/"%char (JoinSlash (String ch rest :: comps))).
    replace (String.eqb _ "") with false by reflexivity.
    unfold Split. rewrite SplitOn_app. fold (Split (JoinSlash (String ch rest :: comps))).
    rewrite (Split_JoinSlash _ _ Hall).
    change (SplitOn "/" "" ++ String ch rest :: comps)
      with ("" :: String ch rest :: comps).
    change (fold_left (cleanStep true) ("" :: String ch rest :: comps) [])
      with (fold_left (cleanStep true) (String ch rest :: comps) []).
    now apply fold_cleanStep_normal.
  - destruct (JoinSlash_head ch rest comps) as [tail Htail].
    change ("" +:+ JoinSlash (String ch rest :: comps))
      with (JoinSlash (String ch rest :: comps)).
    rewrite Htail. simpl String.eqb. cbv iota. rewrite <- Htail.
    rewrite (Split_JoinSlash _ _ Hall).
    now apply fold_cleanStep_normal.
Qed.

Lemma Clean_render (p : string) :
  Clean p = render (IsAbs p) (cleanComps p).
Proof.
  unfold Clean. destruct (String.eqb p "") eqn:E; [|reflexivity].
  apply String.eqb_eq in E. now subst.
Qed.

(** Joining a name a directory can list to a path appends it to the
    components of the path. *)
Lemma Join_name (path name : string) :
  validName name = true ->
  Join path name = render (IsAbs path) (cleanComps path ++ [name]).
Proof.
  intros Hname. pose proof Hname as Hvalid. unfold validName in Hvalid.
  apply andb_prop in Hvalid as [Hvalid Hslash].
  apply andb_prop in Hvalid as [Hvalid _].
  apply andb_prop in Hvalid as [Hempty _].
  apply negb_true_iff in Hempty.
  unfold Join. rewrite Hempty.
  destruct path as [|ch path]; simpl String.eqb; cbv iota.
  - rewrite Clean_render.
    destruct name as [|ch rest]; [discriminate|].
    simpl in Hslash. apply andb_prop in Hslash as [Hch Hrest].
    apply negb_true_iff in Hch. rewrite IsAbs_String, Hch.
    unfold cleanComps. rewrite IsAbs_String, Hch.
    rewrite Split_noSlash by (simpl; now rewrite Hch, Hrest).
    simpl fold_left. now rewrite cleanStep_name.
  - rewrite Clean_render.
    change (String ch path +:+ "/" +:+ name)
      with (String ch (path +:+ "/" +:+ name)).
    rewrite !IsAbs_String. f_equal. unfold cleanComps.
    rewrite !IsAbs_String.
    change (String ch (path +:+ "/" +:+ name))
      with (String ch path +:+ String "/"%char name).
    unfold Split. rewrite SplitOn_app. fold (Split name).
    rewrite (Split_noSlash name Hslash), fold_left_app. simpl.
    now apply cleanStep_name.
Qed.

Lemma reached_Join (root path name : string) (names : list string) :
  Forall (fun x => validName x = true) names -> validName name = true ->
  reached root names path ->
  reached root (names ++ [name]) (Join path name).
Proof.
  intros Hnames Hname Hpath.
  assert (Hgoal : Join path name
                  = render (IsAbs root) (cleanComps root ++ names ++ [name])).
  { destruct names as [|x names]; simpl in Hpath; subst path.
    - now apply Join_name.
    - pose proof (normal_app _ _ _ (cleanComps_normal root) Hnames) as Hn.
      rewrite Join_name by exact Hname.
      rewrite (IsAbs_render _ _ Hn), (cleanComps_render _ _ Hn).
      now rewrite <- app_assoc. }
  unfold reached. now destruct names.
Qed.

Lemma reached_distinct (root path name : string) (names : list string) :
  Forall (fun x => validName x = true) (name :: names) ->
  reached root (name :: names) path -> path <> root.
Proof.
  intros Hnames Hpath Heq. simpl in Hpath. subst path.
  pose proof (normal_app _ _ _ (cleanComps_normal root) Hnames) as Hn.
  apply (f_equal cleanComps) in Heq.
  rewrite (cleanComps_render _ _ Hn) in Heq.
  apply (f_equal (@length string)) in Heq.
  rewrite length_app in Heq. simpl in Heq. lia.
Qed.

(** In a tree whose entries have names a directory can list, no
    directory below the one stored at [root] has the path [root]. *)
Lemma validNames_rootDistinct (root : string) :
  forall n names path,
    Forall (fun x => validName x = true) names ->
    reached root names path ->
    validNames n = true ->
    rootDistinctBelow root path n = true.
Proof.
  induction n as [|es IH] using node_ind2;
    intros names path Hnames Hpath Hvalid; [reflexivity|].
  simpl in *. induction IH as [|[name child] es Hchild _ IHes];
    [reflexivity|].
  simpl in *. apply andb_prop in Hvalid as [Hhere Hrest].
  apply andb_prop in Hhere as [Hname Hbelow].
  rewrite (IHes Hrest), andb_true_r.
  destruct child as [|sub]; [reflexivity|].
  assert (Hnames' : Forall (fun x => validName x = true) (names ++ [name])).
  { apply Forall_app. split; [exact Hnames | now constructor]. }
  pose proof (reached_Join root path name names Hnames Hname Hpath) as Hnext.
  apply andb_true_intro. split.
  - apply negb_true_iff, String.eqb_neq.
    destruct (names ++ [name]) as [|x xs] eqn:E;
      [now destruct names|].
    exact (reached_distinct root _ x xs Hnames' Hnext).
  - exact (Hchild (names ++ [name]) _ Hnames' Hnext Hbelow).
Qed.

End PathFacts.

(** ** The deletion engine *)

Section Engine.

Import Strings Filepath Cleaner Listing.

(** The walk reads the cleaner through [keepFile] only. *)
Lemma walk_ext (c1 c2 : Cleaner) (env : Env) :
  (forall p, keepFile c1 p = keepFile c2 p) ->
  forall n path acc, walk c1 env path n acc = walk c2 env path n acc.
Proof.
  intros Hkeep. induction n as [|es IH] using node_ind2; intros path acc.
  - simpl. unfold walkFn. simpl.
    destruct (lstatFails env path); [reflexivity|].
    destruct (Abs (wd env) path); [|reflexivity]. now rewrite Hkeep.
  - simpl. destruct (lstatFails env path); [reflexivity|].
    destruct (readDirFails env path); [reflexivity|].
    revert acc. induction IH as [|[name child] es Hchild _ IHes];
      intros acc; [reflexivity|].
    simpl in Hchild. rewrite Hchild.
    destruct (walk c2 env (Join path name) child acc); [|reflexivity].
    apply IHes.
Qed.

(** Every path the walk appends is one [keepFile] rejects. *)
Lemma walk_appends_rejected (c : Cleaner) (env : Env) :
  forall n path acc acc',
    walk c env path n acc = Some acc' ->
    forall p, p ∈ acc' -> p ∈ acc \/ keepFile c p = false.
Proof.
  induction n as [|es IH] using node_ind2; intros path acc acc' Hwalk p Hp.
  - simpl in Hwalk. unfold walkFn in Hwalk.
    destruct (lstatFails env path); [discriminate|].
    destruct (Abs (wd env) path) as [absPath|]; [|discriminate].
    destruct (keepFile c absPath) eqn:Ek; injection Hwalk as <-;
      [now left|].
    apply elem_of_app in Hp as [Hp|Hp]; [now left|].
    apply list_elem_of_singleton in Hp as ->. now right.
  - simpl in Hwalk. destruct (lstatFails env path); [discriminate|].
    destruct (readDirFails env path); [discriminate|].
    revert acc Hwalk. induction IH as [|[name child] es Hchild _ IHes];
      intros acc Hwalk.
    + injection Hwalk as <-. now left.
    + simpl in Hchild.
      destruct (walk c env (Join path name) child acc) as [acc1|] eqn:E1;
        [|discriminate].
      destruct (IHes acc1 Hwalk) as [Hin|Hrej]; [|now right].
      exact (Hchild _ _ _ E1 p Hin).
Qed.

Lemma removeEmptyDirs_Directory (c : Cleaner) (env : Env) (path : string)
    (es : list (string * node)) :
  removeEmptyDirs c env path (Directory es)
  = if readDirFails env path then (false, Some (Directory es))
    else
      let '(ok, entries') := subdirs c env path es in
      if negb ok then (false, Some (Directory entries'))
      else if readDirFails env path then (false, Some (Directory entries'))
      else if (length entries' =? 0)%nat
              && negb (String.eqb path (sourceDir c)) then
        if dryRun c then (true, Some (Directory entries'))
        else if removeFails env path
             then (false, Some (Directory entries'))
             else (true, None)
      else (true, Some (Directory entries')).
Proof. reflexivity. Qed.

Lemma subdirs_cons (c : Cleaner) (env : Env) (path name : string)
    (child : node) (rest : list (string * node)) :
  subdirs c env path ((name, child) :: rest)
  = match child with
    | File =>
        let '(ok, rest') := subdirs c env path rest in
        (ok, (name, child) :: rest')
    | Directory _ =>
        if protectGit c && String.eqb name ".git" then
          let '(ok, rest') := subdirs c env path rest in
          (ok, (name, child) :: rest')
        else
          match removeEmptyDirs c env (Join path name) child with
          | (false, child') => (false, consEntry name child' rest)
          | (true, child') =>
              let '(ok, rest') := subdirs c env path rest in
              (ok, consEntry name child' rest')
          end
    end.
Proof. reflexivity. Qed.

(** The collapse pass reads three fields of the cleaner. *)
Lemma removeEmptyDirs_ext (c1 c2 : Cleaner) (env : Env) :
  protectGit c1 = protectGit c2 -> sourceDir c1 = sourceDir c2 ->
  dryRun c1 = dryRun c2 ->
  forall n path,
    removeEmptyDirs c1 env path n = removeEmptyDirs c2 env path n.
Proof.
  intros Hgit Hsrc Hdry. induction n as [|es IH] using node_ind2;
    intros path; [reflexivity|].
  rewrite !removeEmptyDirs_Directory.
  assert (Hsub : subdirs c1 env path es = subdirs c2 env path es).
  { induction IH as [|[name child] es Hchild _ IHes]; [reflexivity|].
    rewrite !subdirs_cons, IHes, Hgit. simpl in Hchild.
    destruct child; [reflexivity|]. now rewrite Hchild. }
  now rewrite Hsub, Hsrc, Hdry.
Qed.

(** In dry-run mode the collapse pass leaves every node as it is. *)
Lemma removeEmptyDirs_dry (c : Cleaner) (env : Env) :
  dryRun c = true ->
  forall n path, (removeEmptyDirs c env path n).2 = Some n.
Proof.
  intros Hdry. induction n as [|es IH] using node_ind2;
    intros path; [reflexivity|].
  rewrite removeEmptyDirs_Directory.
  assert (Hsub : (subdirs c env path es).2 = es).
  { induction IH as [|[name child] es Hchild _ IHes]; [reflexivity|].
    rewrite subdirs_cons. simpl in Hchild.
    destruct (subdirs c env path es) as [ok rest'] eqn:Erest.
    simpl in IHes. subst rest'.
    destruct child as [|sub]; [reflexivity|].
    destruct (protectGit c && String.eqb name ".git"); [reflexivity|].
    specialize (Hchild (Join path name)).
    destruct (removeEmptyDirs c env (Join path name) (Directory sub))
      as [[|] child'];
      simpl in Hchild; subst child'; reflexivity. }
  destruct (subdirs c env path es) as [ok entries']. simpl in Hsub. subst.
  rewrite Hdry.
  destruct (readDirFails env path); [reflexivity|].
  destruct ok; [|reflexivity]. simpl.
  now destruct ((length es =? 0)%nat && negb (String.eqb path (sourceDir c))).
Qed.

(** The directory the pass is started on is never removed. *)
Lemma removeEmptyDirs_keeps_root (c : Cleaner) (env : Env) (n : node) :
  (removeEmptyDirs c env (sourceDir c) n).2 <> None.
Proof.
  destruct n as [|es]; [discriminate|].
  rewrite removeEmptyDirs_Directory, String.eqb_refl.
  change (negb true) with false.
  destruct (readDirFails env (sourceDir c)); [discriminate|].
  destruct (subdirs c env (sourceDir c) es) as [[|] entries'];
    [|discriminate].
  simpl. rewrite andb_false_r. discriminate.
Qed.

(** What a live collapse pass that returns [nil] leaves at [path]: nothing,
    or a node without empty directories which, unless [path] is the
    source directory, has an entry itself. *)
Lemma removeEmptyDirs_live (c : Cleaner) (env : Env) :
  dryRun c = false ->
  forall n path r,
    rootDistinctBelow (sourceDir c) path n = true ->
    removeEmptyDirs c env path n = (true, r) ->
    match r with
    | None => True
    | Some n' =>
        noEmptyDirs (protectGit c) n' = true
        /\ (path <> sourceDir c ->
            exists e es', n' = Directory (e :: es'))
    end.
Proof.
  intros Hlive. induction n as [|es IH] using node_ind2;
    intros path r Hdistinct Hrun; [discriminate|].
  rewrite removeEmptyDirs_Directory in Hrun.
  destruct (readDirFails env path); [discriminate|].
  assert (Hsub : forall es', subdirs c env path es = (true, es') ->
                             noEmptyDirs (protectGit c) (Directory es') = true).
  { simpl in Hdistinct. clear Hrun.
    induction IH as [|[name child] es Hchild _ IHes]; intros es' Hes'.
    - injection Hes' as <-. reflexivity.
    - simpl in Hdistinct. apply andb_prop in Hdistinct as [Hhere Hrest].
      specialize (IHes Hrest). rewrite subdirs_cons in Hes'.
      simpl in Hchild.
      destruct (subdirs c env path es) as [ok rest'].
      destruct child as [|sub].
      + injection Hes' as -> <-. simpl. now apply IHes.
      + destruct (protectGit c && String.eqb name ".git") eqn:Egit.
        * injection Hes' as -> <-. simpl in *. rewrite Egit. simpl.
          now apply IHes.
        * apply andb_prop in Hhere as [Hneq Hbelow].
          destruct (removeEmptyDirs c env (Join path name) (Directory sub))
            as [[|] child'] eqn:Echild; [|discriminate].
          injection Hes' as -> <-.
          specialize (Hchild _ _ Hbelow Echild).
          destruct child' as [n'|]; simpl; [|now apply IHes].
          destruct Hchild as [Hclean Hfull].
          destruct Hfull as (e & es'' & ->).
          { apply negb_true_iff, String.eqb_neq in Hneq. exact Hneq. }
          simpl in *. rewrite Hclean, orb_true_r. simpl. now apply IHes. }
  destruct (subdirs c env path es) as [[|] entries']; [|discriminate].
  specialize (Hsub entries' eq_refl). simpl in Hrun.
  destruct ((length entries' =? 0)%nat
            && negb (String.eqb path (sourceDir c))) eqn:Eempty.
  - rewrite Hlive in Hrun.
    destruct (removeFails env path); [discriminate|].
    now injection Hrun as <-.
  - injection Hrun as <-. split; [exact Hsub|]. intros Hneq.
    apply String.eqb_neq in Hneq. rewrite Hneq, andb_true_r in Eempty.
    destruct entries' as [|e es']; [discriminate|]. eauto.
Qed.

Lemma removeAll_ext (c1 c2 : Cleaner) (env : Env) :
  sourceDir c1 = sourceDir c2 ->
  forall toRemove fs, removeAll c1 env toRemove fs = removeAll c2 env toRemove fs.
Proof.
  intros Hsrc. induction toRemove as [|path rest IH]; intros fs;
    [reflexivity|].
  simpl. unfold fsRemove. rewrite Hsrc.
  destruct (removeFails env path); [reflexivity|].
  destruct fs as [n|]; [|reflexivity].
  destruct (removeAt env path (sourceDir c2) n); try reflexivity. apply IH.
Qed.

(** [Clean] reads the cleaner through [keepFile] and five of its fields. *)
Lemma Clean_ext (c1 c2 : Cleaner) (env : Env) (fs : fsState) :
  (forall p, keepFile c1 p = keepFile c2 p) ->
  sourceDir c1 = sourceDir c2 -> protectGit c1 = protectGit c2 ->
  dryRun c1 = dryRun c2 -> runGoModTidy c1 = runGoModTidy c2 ->
  Clean c1 env fs = Clean c2 env fs.
Proof.
  intros Hkeep Hsrc Hgit Hdry Htidy. unfold Clean, Walk, removeEmptyDirsRoot.
  rewrite Hsrc, Hdry, Htidy.
  destruct fs as [n|]; [|reflexivity].
  rewrite (walk_ext c1 c2 env Hkeep).
  destruct (walk c2 env (sourceDir c2) n []) as [toRemove|]; [|reflexivity].
  rewrite (removeAll_ext c1 c2 env Hsrc).
  assert (Hpass3 : forall fs2 : fsState,
             match fs2 with
             | Some n0 => removeEmptyDirs c1 env (sourceDir c2) n0
             | None => (false, None)
             end
             = match fs2 with
               | Some n0 => removeEmptyDirs c2 env (sourceDir c2) n0
               | None => (false, None)
               end).
  { intros [n0|]; [|reflexivity].
    apply (removeEmptyDirs_ext c1 c2 env Hgit Hsrc Hdry). }
  destruct (dryRun c2); simpl.
  - now rewrite (Hpass3 (Some n)).
  - destruct (removeAll c2 env toRemove (Some n)) as [[path|] fs2];
      [reflexivity|].
    now rewrite Hpass3.
Qed.

(** The [toRemove] list [Clean] works with is the one the walk returned. *)
Lemma classified_Clean (c : Cleaner) (env : Env) (fs : fsState) :
  classified (Clean c env fs) = Walk c env fs.
Proof.
  unfold Clean. destruct (Walk c env fs) as [toRemove|]; [|reflexivity].
  destruct (if negb (dryRun c) then _ else _) as [[path|] fs2];
    [reflexivity|].
  destruct (removeEmptyDirsRoot c env fs2) as [[|] fs3]; [|reflexivity].
  simpl. destruct (negb (dryRun c) && runGoModTidy c); [|reflexivity].
  now destruct (goModTidy env (sourceDir c) fs3) as [[|] fs4].
Qed.

(** C2. In dry-run mode [Clean] leaves the tree as it found it, whatever
    it returns, and its first pass classifies for removal the very list of
    paths the first pass of a live run on the same tree does. *)
Theorem dry_run_preview (c : Cleaner) (env : Env) (fs : fsState) :
  dryRun c = true ->
  fsAfter (Clean c env fs) = fs
  /\ classified (Clean c env fs)
     = classified (Clean (WithDryRun false c) env fs).
Proof.
  intros Hdry. split.
  - unfold Clean. destruct (Walk c env fs) as [toRemove|]; [|reflexivity].
    rewrite Hdry. simpl. unfold removeEmptyDirsRoot.
    destruct fs as [n|]; [|reflexivity].
    pose proof (removeEmptyDirs_dry c env Hdry n (sourceDir c)) as Hsame.
    destruct (removeEmptyDirs c env (sourceDir c) n) as [[|] fs3];
      simpl in Hsame; subst fs3; reflexivity.
  - rewrite !classified_Clean. unfold Walk.
    destruct fs as [n|]; [|reflexivity].
    now apply walk_ext.
Qed.

Lemma dry_run_preview_witness :
  fsAfter (Clean Scenarios.dryCleaner Scenarios.quiet Scenarios.testTree)
  = Scenarios.testTree
  /\ classified (Clean Scenarios.dryCleaner Scenarios.quiet Scenarios.testTree)
     = classified (Clean (WithDryRun false Scenarios.dryCleaner)
                         Scenarios.quiet Scenarios.testTree).
Proof. apply dry_run_preview. reflexivity. Defined.

(** C3 as stated fails: with version-control protection on, a [go.mod]
    below a [testdata] directory that is itself below [.git], absent from
    the keep set, is kept. *)
Lemma fixture_manifest_below_git_kept :
  Base "/src/.git/testdata/go.mod" = "go.mod"
  /\ Contains "/src/.git/testdata/go.mod" "/testdata/" = true
  /\ ("/src/.git/testdata/go.mod" ∉ filesToKeep Scenarios.plainCleaner)
  /\ keepFile Scenarios.plainCleaner "/src/.git/testdata/go.mod" = true.
Proof.
  split; [reflexivity|]. split; [reflexivity|]. split; [|reflexivity].
  vm_compute. set_solver.
Qed.

(** C3, amended. A path that contains [/.git/] is kept when
    version-control protection is on, in the keep set or not; a path whose
    base name is [go.mod] or [go.sum] and that does not contain
    [/testdata/] is kept when manifest protection is on, in the keep set
    or not; and a path that contains [/testdata/], is not in the keep set
    and is not covered by version-control protection is classified for
    removal, whatever its base name. *)
Theorem protection_invariants (c : Cleaner)
    (vcsPath manifestPath fixturePath : string) :
  Contains vcsPath "/.git/" = true ->
  Base manifestPath = "go.mod" \/ Base manifestPath = "go.sum" ->
  Contains manifestPath "/testdata/" = false ->
  Contains fixturePath "/testdata/" = true ->
  fixturePath ∉ filesToKeep c ->
  protectGit c && Contains fixturePath "/.git/" = false ->
  (protectGit c = true -> keepFile c vcsPath = true)
  /\ (protectGoMod c = true -> keepFile c manifestPath = true)
  /\ keepFile c fixturePath = false.
Proof.
  intros Hvcs Hbase Hout Hin Hnot Hgit. unfold keepFile. split; [|split].
  - intros ->. rewrite Hvcs. simpl. now destruct (bool_decide _).
  - intros ->. rewrite Hout. simpl.
    destruct (bool_decide _); [reflexivity|].
    destruct (protectGit c && Contains manifestPath "/.git/");
      [reflexivity|].
    destruct Hbase as [-> | ->]; reflexivity.
  - rewrite bool_decide_eq_false_2 by exact Hnot.
    rewrite Hgit, Hin. simpl. now rewrite andb_false_r.
Qed.

Lemma protection_invariants_witness :
  keepFile Scenarios.plainCleaner "/src/.git/config" = true
  /\ keepFile Scenarios.plainCleaner "/src/go.mod" = true
  /\ keepFile Scenarios.plainCleaner "/src/pkg/testdata/go.mod" = false.
Proof.
  destruct (protection_invariants Scenarios.plainCleaner
              "/src/.git/config" "/src/go.mod" "/src/pkg/testdata/go.mod")
    as (Hvcs & Hmanifest & Hfixture);
    [reflexivity | left; reflexivity | reflexivity | reflexivity
    | vm_compute; set_solver | reflexivity | ].
  split; [apply Hvcs; reflexivity|].
  split; [apply Hmanifest; reflexivity | exact Hfixture].
Defined.

(** No path [keepFile] accepts is in the list [Clean] classifies for
    removal. *)
Lemma kept_not_classified (c : Cleaner) (env : Env) (fs : fsState)
    (toRemove : list string) (p : string) :
  classified (Clean c env fs) = Some toRemove ->
  keepFile c p = true -> p ∉ toRemove.
Proof.
  rewrite classified_Clean. unfold Walk. destruct fs as [n|]; [|discriminate].
  intros Hwalk Hkept Hin.
  destruct (walk_appends_rejected c env n _ _ _ Hwalk p Hin) as [H|H];
    [inversion H | congruence].
Qed.

Lemma files_consEntry (env : Env) (path name : string)
    (child : option node) (rest : list (string * node)) :
  flat_map (fun e : string * node => filesOf env (Join path e.1) e.2)
           (consEntry name child rest)
  = filesOfState env (Join path name) child
    ++ flat_map (fun e : string * node => filesOf env (Join path e.1) e.2)
                rest.
Proof. now destruct child. Qed.

(** The collapse pass removes no regular file: what it leaves at [path]
    holds the files that were there, whether it fails or not. *)
Lemma removeEmptyDirs_files (c : Cleaner) (env : Env) :
  forall n path,
    filesOfState env path (removeEmptyDirs c env path n).2
    = filesOf env path n.
Proof.
  induction n as [|es IH] using node_ind2; intros path; [reflexivity|].
  rewrite removeEmptyDirs_Directory.
  assert (Hsub :
    flat_map (fun e : string * node => filesOf env (Join path e.1) e.2)
             (subdirs c env path es).2
    = flat_map (fun e : string * node => filesOf env (Join path e.1) e.2)
               es).
  { induction IH as [|[name child] es Hchild _ IHes]; [reflexivity|].
    rewrite subdirs_cons. simpl in Hchild.
    destruct (subdirs c env path es) as [ok rest']. simpl in IHes.
    destruct child as [|sub]; [simpl; now rewrite IHes|].
    destruct (protectGit c && String.eqb name ".git");
      [simpl; now rewrite IHes|].
    specialize (Hchild (Join path name)).
    destruct (removeEmptyDirs c env (Join path name) (Directory sub))
      as [[|] child']; simpl snd in *;
      rewrite files_consEntry, Hchild; simpl; [now rewrite IHes|].
    reflexivity. }
  destruct (subdirs c env path es) as [ok entries']. simpl in Hsub.
  destruct (readDirFails env path); [reflexivity|].
  destruct ok; simpl; [|exact Hsub].
  destruct ((length entries' =? 0)%nat
            && negb (String.eqb path (sourceDir c))) eqn:Eempty;
    [|exact Hsub].
  destruct (dryRun c); [exact Hsub|].
  destruct (removeFails env path); [exact Hsub|]. simpl.
  apply andb_prop in Eempty as [Elen _].
  destruct entries'; [now rewrite <- Hsub | discriminate].
Qed.

(** Where no [ReadDir] fails and, in a live run, no [Remove] fails, the
    collapse pass returns [nil] on every directory. *)
Lemma removeEmptyDirs_returns_nil (c : Cleaner) (env : Env) :
  (forall p, readDirFails env p = false) ->
  (forall p, removeFails env p = false) ->
  forall n path es,
    n = Directory es -> (removeEmptyDirs c env path n).1 = true.
Proof.
  intros Hread Hremove. induction n as [|es IH] using node_ind2;
    intros path es0 Heq; [discriminate|]. clear Heq.
  rewrite removeEmptyDirs_Directory, Hread.
  assert (Hsub : (subdirs c env path es).1 = true).
  { induction IH as [|[name child] es Hchild _ IHes]; [reflexivity|].
    rewrite subdirs_cons. simpl in Hchild.
    destruct (subdirs c env path es) as [ok rest']. simpl in IHes. subst ok.
    destruct child as [|sub]; [reflexivity|].
    destruct (protectGit c && String.eqb name ".git"); [reflexivity|].
    specialize (Hchild (Join path name) sub eq_refl).
    destruct (removeEmptyDirs c env (Join path name) (Directory sub))
      as [[|] child']; [reflexivity | discriminate]. }
  destruct (subdirs c env path es) as [ok entries']. simpl in Hsub. subst ok.
  simpl.
  destruct ((length entries' =? 0)%nat
            && negb (String.eqb path (sourceDir c))); [|reflexivity].
  destruct (dryRun c); [reflexivity|]. now rewrite Hremove.
Qed.

(** C7. Whatever a live collapse pass started on the source directory
    returns, that directory is still in place and holds the regular files
    it held; and when the pass has returned [nil], no directory below the
    source directory is empty, the directories named [.git] and what they
    hold apart when version-control protection is on. One pass is enough:
    nothing is assumed of the tree but ordinary entry names. *)
Theorem collapse_leaves_no_empty_directory (c : Cleaner) (env : Env)
    (n : node) (ok : bool) (r : option node) :
  dryRun c = false ->
  Props.validNames n = true ->
  removeEmptyDirs c env (sourceDir c) n = (ok, r) ->
  exists n' : node,
    r = Some n'
    /\ filesOf env (sourceDir c) n' = filesOf env (sourceDir c) n
    /\ (ok = true -> noEmptyDirs (protectGit c) n' = true).
Proof.
  intros Hlive Hvalid Erun.
  assert (Hdistinct : rootDistinctBelow (sourceDir c) (sourceDir c) n = true).
  { apply (validNames_rootDistinct (sourceDir c) n [] (sourceDir c));
      [constructor | reflexivity | exact Hvalid]. }
  pose proof (removeEmptyDirs_keeps_root c env n) as Hroot.
  pose proof (removeEmptyDirs_files c env n (sourceDir c)) as Hfiles.
  rewrite Erun in Hroot, Hfiles. simpl in Hroot, Hfiles.
  destruct r as [n'|]; [|now contradiction Hroot].
  exists n'. split; [reflexivity|]. split; [exact Hfiles|]. intros ->.
  now destruct (removeEmptyDirs_live c env Hlive n _ _ Hdistinct Erun).
Qed.

Lemma collapse_leaves_no_empty_directory_witness :
  removeEmptyDirs Scenarios.plainCleaner Scenarios.quiet
    (sourceDir Scenarios.plainCleaner) Scenarios.hollowTree
  = (true, Some Scenarios.collapsedHollow)
  /\ filesOf Scenarios.quiet (sourceDir Scenarios.plainCleaner)
             Scenarios.collapsedHollow
     = filesOf Scenarios.quiet (sourceDir Scenarios.plainCleaner)
               Scenarios.hollowTree
  /\ noEmptyDirs (protectGit Scenarios.plainCleaner)
                 Scenarios.collapsedHollow = true.
Proof.
  assert (Erun : removeEmptyDirs Scenarios.plainCleaner Scenarios.quiet
                   (sourceDir Scenarios.plainCleaner) Scenarios.hollowTree
                 = (true, Some Scenarios.collapsedHollow))
    by (vm_compute; reflexivity).
  destruct (collapse_leaves_no_empty_directory Scenarios.plainCleaner
              Scenarios.quiet Scenarios.hollowTree true
              (Some Scenarios.collapsedHollow) eq_refl eq_refl Erun)
    as (n' & Heq & Hfiles & Hclean).
  injection Heq as <-.
  split; [exact Erun|]. split; [exact Hfiles | now apply Hclean].
Defined.

(** C8. When the walk of the first pass fails, [Clean] returns the walk
    error, has removed nothing, and acts on no classification. *)
Theorem walk_error_aborts (c : Cleaner) (env : Env) (fs : fsState) :
  Walk c env fs = None ->
  failure (Clean c env fs) = Some WalkError
  /\ fsAfter (Clean c env fs) = fs
  /\ classified (Clean c env fs) = None.
Proof. intros Hwalk. unfold Clean. rewrite Hwalk. auto. Qed.

Lemma walk_error_aborts_witness :
  failure (Clean Scenarios.testCleaner Scenarios.pkg2Unreadable
                 Scenarios.testTree) = Some WalkError
  /\ fsAfter (Clean Scenarios.testCleaner Scenarios.pkg2Unreadable
                    Scenarios.testTree) = Scenarios.testTree
  /\ classified (Clean Scenarios.testCleaner Scenarios.pkg2Unreadable
                       Scenarios.testTree) = None.
Proof. apply walk_error_aborts. reflexivity. Defined.

(** C9. [Clean] does the same whatever the test-keeping option is set to:
    same error, same tree left, same classification. *)
Theorem test_keeping_is_inert (c : Cleaner) (env : Env) (fs : fsState)
    (keep keep' : bool) :
  Clean (WithTestKeeping keep c) env fs
  = Clean (WithTestKeeping keep' c) env fs.
Proof. apply Clean_ext; reflexivity. Qed.

End Engine.

(** ** The repository's test cases and the end-to-end scenario *)

Module TestCases.
Import Pkglist Cleaner Scenarios.

Example FilterByPatterns_wildcard :
  FilterByPatterns (map_to_list wildcardPackages)
    ["github.com/test/repo/pkg/..."]
  = {["github.com/test/repo/pkg/a"; "github.com/test/repo/pkg/b"]}.
Proof. vm_compute. reflexivity. Qed.

Example GetFileList_with_tests :
  GetFileList (map_to_list fixturePackages) {["pkg1"]} true
  = ["/test/pkg1/main.go"; "/test/pkg1/main_test.go";
     "/test/pkg1/testdata/fixture.json"].
Proof. vm_compute. reflexivity. Qed.

Example GetFileList_without_tests :
  GetFileList (map_to_list fixturePackages) {["pkg1"]} false
  = ["/test/pkg1/main.go"].
Proof. vm_compute. reflexivity. Qed.

Example TestCleaner_classified :
  classified (Clean testCleaner quiet testTree)
  = Some ["/src/pkg1/file2.go"; "/src/pkg2/file3.go"].
Proof. vm_compute. reflexivity. Qed.

Example TestCleaner_after :
  fsAfter (Clean testCleaner quiet testTree)
  = Some (Directory
      [("pkg1", Directory [("file1.go", File)]);
       ("pkg2", Directory [("file4_test.go", File)])]).
Proof. vm_compute. reflexivity. Qed.

Example hollow_collapsed :
  removeEmptyDirs plainCleaner quiet "/src" hollowTree
  = (true,
     Some (Directory
       [(".git", Directory [("objects", Directory [])]);
        ("d", Directory [("keep.go", File)])])).
Proof. vm_compute. reflexivity. Qed.

Example walk_fails_on_unreadable :
  Walk testCleaner pkg2Unreadable testTree = None.
Proof. vm_compute. reflexivity. Qed.

(** Pattern [repo/pkg2], tests excluded: closure pulls in [repo/pkg1], and
    the four source files are projected. *)
Example end_to_end_keep_set :
  AddDependencies repoPackages ["repo/pkg2"]
    (FilterByPatterns (map_to_list repoPackages) ["repo/pkg2"])
  = Some {["repo/pkg1"; "repo/pkg2"]}.
Proof. vm_compute. reflexivity. Qed.

Example end_to_end_files :
  list_to_set
    (GetFileList (map_to_list repoPackages)
       {["repo/pkg1"; "repo/pkg2"]} false)
  = ({["/repo/pkg1/main.go"; "/repo/pkg1/util.go";
       "/repo/pkg2/main.go"; "/repo/pkg2/util.go"]} : gset string).
Proof. vm_compute. reflexivity. Qed.

End TestCases.

(** * Further properties of the code *)

(** ** Discovery and pattern filtering *)

Section Finder.

Import Strings Pkglist Discovery Props.

Lemma find_snoc {A : Type} (f : A -> bool) (l : list A) (x : A) :
  List.find f (l ++ [x])
  = match List.find f l with
    | Some y => Some y
    | None => if f x then Some x else None
    end.
Proof.
  induction l as [|a l IH]; simpl; [reflexivity|].
  now destruct (f a).
Qed.

Lemma FindAll_fold (out : list GoListRecord) (m : gmap string Package)
    (k : string) :
  fold_left (fun m r => <[jImportPath r := decodePackage r]> m) out m !! k
  = match List.find (fun r => String.eqb (jImportPath r) k) (rev out) with
    | Some r => Some (decodePackage r)
    | None => m !! k
    end.
Proof.
  revert m. induction out as [|r out IH]; intros m; [reflexivity|].
  simpl. rewrite IH, find_snoc.
  destruct (List.find _ (rev out)); [reflexivity|].
  destruct (String.eqb (jImportPath r) k) eqn:E.
  - apply String.eqb_eq in E. subst k. now rewrite lookup_insert_eq.
  - apply String.eqb_neq in E. now rewrite lookup_insert_ne.
Qed.

Lemma FindAll_find (out : list GoListRecord) (k : string) :
  FindAll out !! k
  = decodePackage
      <$> List.find (fun r => String.eqb (jImportPath r) k) (rev out).
Proof.
  unfold FindAll. rewrite FindAll_fold.
  now destruct (List.find _ (rev out)).
Qed.

Lemma FindAll_own_key (out : list GoListRecord) (k : string) (pkg : Package) :
  FindAll out !! k = Some pkg -> ImportPath pkg = k.
Proof.
  rewrite FindAll_find.
  destruct (List.find _ (rev out)) as [r|] eqn:E; [|discriminate].
  intros [= <-]. apply find_some in E as [_ E].
  now apply String.eqb_eq in E.
Qed.

(** [FindAll] stores under each identity the last record of the output
    that carries it, decoded; identities the output does not carry are
    absent. *)
Theorem FindAll_lookup (out : list GoListRecord) (k : string) :
  FindAll out !! k
  = decodePackage
      <$> List.find (fun r => String.eqb (jImportPath r) k) (rev out).
Proof. apply FindAll_find. Qed.

(** Every package [FindAll] stores is filed under its own [ImportPath]. *)
Theorem FindAll_keys (out : list GoListRecord) (k : string) (pkg : Package) :
  FindAll out !! k = Some pkg -> ImportPath pkg = k.
Proof. apply FindAll_own_key. Qed.

Lemma FindAll_keys_witness :
  ImportPath (decodePackage Scenarios.pkg2Record) = "repo/pkg2".
Proof. apply (FindAll_keys [Scenarios.pkg1Record; Scenarios.pkg2Record]).
  reflexivity.
Defined.

Lemma decodeLoop_ok (records : list GoListRecord)
    (m : gmap string Package) :
  decodeLoop (map Some records) m
  = (None,
     fold_left (fun m r => <[jImportPath r := decodePackage r]> m) records m).
Proof.
  revert m. induction records as [|r records IH]; intros m;
    [reflexivity | apply IH].
Qed.

(** When the object after [records] does not decode, [FindAll] returns the
    decode error, and the finder is left holding the packages of
    [records]: the part of the output decoded so far is not discarded. *)
Theorem FindAll_decode_error (records : list GoListRecord)
    (rest : list (option GoListRecord)) :
  FindAllFrom (Some (map Some records ++ None :: rest)) ∅
  = (Some DecodeError, FindAll records).
Proof.
  unfold FindAllFrom, FindAll. generalize (∅ : gmap string Package).
  induction records as [|r records IH]; intros m; [reflexivity|].
  simpl. apply IH.
Qed.

Lemma filter_one_pattern (order : list (string * Package))
    (pattern : string) (keep : gset string) (x : string) :
  x ∈ fold_left
        (fun keep (kv : string * Package) =>
           if matchPackage pattern (ImportPath kv.2) (Dir kv.2)
           then {[ImportPath kv.2]} ∪ keep else keep)
        order keep
  <-> x ∈ keep
      \/ exists kv, kv ∈ order
           /\ matchPackage pattern (ImportPath kv.2) (Dir kv.2) = true
           /\ x = ImportPath kv.2.
Proof.
  revert keep. induction order as [|kv order IH]; intros keep; simpl.
  - split; [now left|]. intros [H|(kv & H & _)]; [exact H | inversion H].
  - rewrite IH. split.
    + intros [H|(kv' & Hin & Hm & ->)].
      * destruct (matchPackage pattern _ _) eqn:E; [|now left].
        apply elem_of_union in H as [H|H]; [|now left].
        apply elem_of_singleton in H as ->.
        right. exists kv. split; [now left|]. now split.
      * right. exists kv'. split; [now right|]. now split.
    + intros [H|(kv' & Hin & Hm & ->)].
      * left. destruct (matchPackage pattern _ _); [set_solver | exact H].
      * apply elem_of_cons in Hin as [->|Hin].
        -- left. rewrite Hm. set_solver.
        -- right. exists kv'. now repeat split.
Qed.

Lemma FilterByPatterns_elem (order : list (string * Package))
    (patterns : list string) (x : string) :
  x ∈ FilterByPatterns order patterns
  <-> exists pattern kv,
        pattern ∈ patterns /\ kv ∈ order
        /\ matchPackage pattern (ImportPath kv.2) (Dir kv.2) = true
        /\ x = ImportPath kv.2.
Proof.
  unfold FilterByPatterns.
  assert (Hgen : forall keep : gset string,
    x ∈ fold_left
          (fun keep pattern =>
             fold_left
               (fun keep (kv : string * Package) =>
                  if matchPackage pattern (ImportPath kv.2) (Dir kv.2)
                  then {[ImportPath kv.2]} ∪ keep else keep)
               order keep)
          patterns keep
    <-> x ∈ keep
        \/ exists pattern kv,
             pattern ∈ patterns /\ kv ∈ order
             /\ matchPackage pattern (ImportPath kv.2) (Dir kv.2) = true
             /\ x = ImportPath kv.2).
  { induction patterns as [|pattern patterns IH]; intros keep; simpl.
    - split; [now left|].
      intros [H|(pattern & kv & H & _)]; [exact H | inversion H].
    - rewrite IH, filter_one_pattern. split.
      + intros [[H|(kv & Hin & Hm & ->)]|(pattern' & kv & Hp & Hin & Hm & ->)].
        * now left.
        * right. exists pattern, kv. split; [now left|]. now repeat split.
        * right. exists pattern', kv. split; [now right|]. now repeat split.
      + intros [H|(pattern' & kv & Hp & Hin & Hm & ->)]; [now left; left|].
        apply elem_of_cons in Hp as [->|Hp].
        * left. right. exists kv. now repeat split.
        * right. exists pattern', kv. now repeat split. }
  rewrite Hgen. split; [|now right].
  intros [H|H]; [|exact H]. now apply not_elem_of_empty in H.
Qed.

(** [FilterByPatterns] returns the identities of exactly those packages
    that some pattern matches: an empty pattern list, or patterns that
    match nothing, select nothing. *)
Theorem FilterByPatterns_spec (order : list (string * Package))
    (patterns : list string) (x : string) :
  x ∈ FilterByPatterns order patterns
  <-> exists pattern kv,
        pattern ∈ patterns /\ kv ∈ order
        /\ matchPackage pattern (ImportPath kv.2) (Dir kv.2) = true
        /\ x = ImportPath kv.2.
Proof. apply FilterByPatterns_elem. Qed.

Lemma matchPackage_dot (importPath dir : string) :
  matchPackage "./..." importPath dir = true.
Proof.
  unfold matchPackage, Filepath.ToSlash.
  now destruct (String.eqb "./..." importPath).
Qed.

(** The pattern [./...] selects every package of the finder, whatever
    its identity and directory. *)
Theorem FilterByPatterns_all (order : list (string * Package)) :
  FilterByPatterns order ["./..."]
  = list_to_set (map (fun kv : string * Package => ImportPath kv.2) order).
Proof.
  apply set_eq. intros x.
  rewrite FilterByPatterns_elem, elem_of_list_to_set.
  change (map (fun kv : string * Package => ImportPath kv.2) order)
    with ((fun kv : string * Package => ImportPath kv.2) <$> order).
  rewrite list_elem_of_fmap. split.
  - intros (pattern & kv & _ & Hin & _ & ->). now exists kv.
  - intros (kv & -> & Hin). exists "./...", kv.
    split; [now left|]. split; [exact Hin|].
    split; [apply matchPackage_dot | reflexivity].
Qed.

(** With tests requested, every primary, test, other and embedded file
    that the record of a kept package lists is in the file list, the
    other files below [testdata] included. *)
Theorem projection_complete (packages : gmap string Package)
    (order : list (string * Package)) (keep : gset string)
    (pkgPath : string) (pkg : Package) (f : string) :
  rangeOrderMap order packages ->
  packages !! pkgPath = Some pkg -> pkgPath ∈ keep ->
  f ∈ GoFiles pkg ++ TestGoFiles pkg ++ OtherFiles pkg ++ EmbedFiles pkg ->
  Filepath.Join (Dir pkg) f ∈ GetFileList order keep true.
Proof. apply projection_keeps_listed_files. Qed.

(** Only the packages in [keepPackages] contribute to the file list. *)
Lemma GetFileList_elem (order : list (string * Package))
    (keep : gset string) (withTests : bool) (path : string) :
  path ∈ GetFileList order keep withTests
  <-> exists kv, kv ∈ order /\ kv.1 ∈ keep
                 /\ path ∈ packageFiles withTests kv.2.
Proof.
  unfold GetFileList. rewrite list_elem_of_In, in_flat_map. split.
  - intros (kv & Hin & Hpath). exists kv.
    destruct (bool_decide (kv.1 ∈ keep)) eqn:E; [|inversion Hpath].
    apply bool_decide_eq_true in E.
    split; [now apply list_elem_of_In|]. split; [exact E|].
    now apply list_elem_of_In.
  - intros (kv & Hin & Hkeep & Hpath). exists kv.
    split; [now apply list_elem_of_In|].
    rewrite bool_decide_eq_true_2 by exact Hkeep.
    now apply list_elem_of_In.
Qed.

(** Without tests, every path of the file list comes from a kept package
    and is one of its primary files, one of its other files outside any
    [testdata] directory, or one of its embedded files. *)
Theorem file_list_without_tests (order : list (string * Package))
    (keep : gset string) (path : string) :
  path ∈ GetFileList order keep false ->
  exists kv,
    kv ∈ order /\ kv.1 ∈ keep
    /\ (path ∈ map (Filepath.Join (Dir kv.2)) (GoFiles kv.2)
        \/ (path ∈ map (Filepath.Join (Dir kv.2)) (OtherFiles kv.2)
            /\ Contains path "/testdata/" = false)
        \/ path ∈ map (Filepath.Join (Dir kv.2)) (EmbedFiles kv.2)).
Proof.
  rewrite GetFileList_elem. intros (kv & Hin & Hkeep & Hpath).
  exists kv. split; [exact Hin|]. split; [exact Hkeep|].
  now apply projection_without_tests.
Qed.

(** Requesting tests only adds to the file list. *)
Theorem GetFileList_tests_only_add (order : list (string * Package))
    (keep : gset string) (path : string) :
  path ∈ GetFileList order keep false ->
  path ∈ GetFileList order keep true.
Proof.
  rewrite !GetFileList_elem. intros (kv & Hin & Hkeep & Hpath).
  exists kv. split; [exact Hin|]. split; [exact Hkeep|].
  unfold packageFiles in *. rewrite !elem_of_app in *.
  destruct Hpath as [H|[H|H]]; [now left | | now right; right].
  right. left. right.
  apply list_elem_of_In, filter_In in H as [H _].
  now apply list_elem_of_In.
Qed.

(** The primary and the embedded files of a kept package are in the file
    list whether tests are requested or not. *)
Theorem GetFileList_always (order : list (string * Package))
    (keep : gset string) (withTests : bool) (kv : string * Package)
    (f : string) :
  kv ∈ order -> kv.1 ∈ keep ->
  f ∈ GoFiles kv.2 ++ EmbedFiles kv.2 ->
  Filepath.Join (Dir kv.2) f ∈ GetFileList order keep withTests.
Proof.
  intros Hin Hkeep Hf. apply GetFileList_elem.
  exists kv. split; [exact Hin|]. split; [exact Hkeep|].
  unfold packageFiles. rewrite !elem_of_app.
  apply elem_of_app in Hf as [Hf|Hf];
    [left | right; right]; now apply list_elem_of_fmap_2.
Qed.

End Finder.

(** ** Closure: the least closed superset *)

Section ClosureLeast.

Import Pkglist Props.

Variable packages : gmap string Package.

(** Whatever the loop adds lies in every closed set that contains the keep
    set it started from. *)
Lemma loop_within (fuel : nat) :
  forall (keep : gset string) (toProcess : list string) (i : nat)
         (bound kept : gset string),
    closed packages bound -> keep ⊆ bound ->
    (forall x, x ∈ toProcess -> x ∈ keep) ->
    addDependenciesLoop fuel packages keep toProcess i = Some kept ->
    kept ⊆ bound.
Proof.
  induction fuel as [|fuel IH];
    intros keep toProcess i bound kept Hclosed Hsub Hall Hrun;
    simpl in Hrun; destruct (toProcess !! i) as [pkg|] eqn:Ei;
    try discriminate; try (injection Hrun as <-; exact Hsub).
  assert (Hpkg : pkg ∈ bound).
  { apply Hsub, Hall, list_elem_of_lookup. eauto. }
  destruct (packages !! pkg) as [p|] eqn:Ep.
  - destruct (addDep_fold packages (Deps p) keep toProcess)
      as (new & Heq & _ & Hnew & _).
    rewrite Heq in Hrun. simpl in Hrun.
    assert (Hnewin : forall x, x ∈ new -> x ∈ bound).
    { intros x Hx. destruct (Hnew x Hx) as (_ & Hin & Hdep).
      exact (Hclosed pkg Hpkg p x Ep Hdep Hin). }
    eapply IH; [exact Hclosed | | | exact Hrun].
    + intros x Hx. apply elem_of_union in Hx as [Hx|Hx]; [now apply Hsub|].
      apply Hnewin. now apply elem_of_list_to_set in Hx.
    + intros x Hx. apply elem_of_app in Hx as [Hx|Hx].
      * apply elem_of_union. left. now apply Hall.
      * apply elem_of_union. right. now apply elem_of_list_to_set.
  - simpl in Hrun. eapply IH; eauto.
Qed.

Lemma AddDependencies_returns (order : list string) (keep : gset string) :
  rangeOrder order keep ->
  exists kept : gset string,
    AddDependencies packages order keep = Some kept
    /\ keep ⊆ kept /\ closed packages kept.
Proof.
  intros Horder. unfold AddDependencies.
  destruct (loop_closes packages
              (length order + size (dom packages ∖ keep)) keep order 0)
    as (kept & Hrun & Hsub & Hclosed & _).
  - lia.
  - intros x Hx. now apply (rangeOrder_elem order keep x Horder).
  - intros j p Hj. lia.
  - now exists kept.
Qed.

Lemma AddDependencies_within (order : list string)
    (keep bound kept : gset string) :
  rangeOrder order keep -> closed packages bound -> keep ⊆ bound ->
  AddDependencies packages order keep = Some kept -> kept ⊆ bound.
Proof.
  intros Horder Hclosed Hsub Hrun.
  eapply loop_within; [exact Hclosed | exact Hsub | | exact Hrun].
  intros x Hx. now apply (rangeOrder_elem order keep x Horder).
Qed.

(** Closure adds nothing that is not needed: the set it returns is
    contained in every set that contains the keep set and is closed under
    in-tree dependencies. *)
Theorem closure_least (order : list string) (keep bound : gset string) :
  rangeOrder order keep ->
  keep ⊆ bound ->
  (forall p pkg d,
      p ∈ bound -> packages !! p = Some pkg -> d ∈ Deps pkg ->
      is_Some (packages !! d) -> d ∈ bound) ->
  exists kept : gset string,
    AddDependencies packages order keep = Some kept /\ kept ⊆ bound.
Proof.
  intros Horder Hsub Hclosed.
  destruct (AddDependencies_returns order keep Horder)
    as (kept & Hrun & _ & _).
  exists kept. split; [exact Hrun|].
  eapply AddDependencies_within; eauto.
  intros p Hp pkg d. now apply Hclosed.
Qed.

(** The set closure returns does not depend on the order in which the
    keep set is ranged over. *)
Theorem closure_order_independent (order order' : list string)
    (keep : gset string) :
  rangeOrder order keep -> rangeOrder order' keep ->
  AddDependencies packages order keep
  = AddDependencies packages order' keep.
Proof.
  intros Horder Horder'.
  destruct (AddDependencies_returns order keep Horder)
    as (kept & Hrun & Hsub & Hclosed).
  destruct (AddDependencies_returns order' keep Horder')
    as (kept' & Hrun' & Hsub' & Hclosed').
  rewrite Hrun, Hrun'. f_equal. apply set_eq. intros x. split.
  - apply (AddDependencies_within order keep kept' kept); auto.
  - apply (AddDependencies_within order' keep kept kept'); auto.
Qed.

(** Closure is monotone: a larger keep set gives a larger closed set. *)
Theorem closure_monotone (order order' : list string)
    (keep keep' : gset string) :
  rangeOrder order keep -> rangeOrder order' keep' -> keep ⊆ keep' ->
  exists kept kept' : gset string,
    AddDependencies packages order keep = Some kept
    /\ AddDependencies packages order' keep' = Some kept'
    /\ kept ⊆ kept'.
Proof.
  intros Horder Horder' Hsub.
  destruct (AddDependencies_returns order keep Horder)
    as (kept & Hrun & _ & _).
  destruct (AddDependencies_returns order' keep' Horder')
    as (kept' & Hrun' & Hsub' & Hclosed').
  exists kept, kept'. split; [exact Hrun|]. split; [exact Hrun'|].
  apply (AddDependencies_within order keep kept' kept); auto.
  set_solver.
Qed.

End ClosureLeast.

(** ** Classification, removal and collapse on the files of the tree *)

Section EngineFiles.

Import Strings Filepath Cleaner Listing.

Lemma removeAt_Directory (env : Env) (target path : string)
    (es : list (string * node)) :
  removeAt env target path (Directory es)
  = if bool_decide (Abs (wd env) path = Some target) then
      match es with
      | [] => Removed None
      | _ :: _ => Refused
      end
    else
      match scan env target path es with
      | Removed es' => Removed (Some (Directory es'))
      | Refused => Refused
      | NotFound => NotFound
      end.
Proof. reflexivity. Qed.

(** The list the walk returns: what it was given, then the files of the
    tree that [keepFile] rejects, in walk order. *)
Lemma walk_classifies (c : Cleaner) (env : Env) :
  forall n path acc acc',
    walk c env path n acc = Some acc' ->
    acc' = acc ++ List.filter (fun p => negb (keepFile c p))
                              (filesOf env path n).
Proof.
  induction n as [|es IH] using node_ind2; intros path acc acc' Hwalk.
  - simpl in *. unfold walkFn, absList in *.
    destruct (lstatFails env path); [discriminate|].
    destruct (Abs (wd env) path) as [absPath|]; [|discriminate].
    simpl. destruct (keepFile c absPath); injection Hwalk as <-;
      [now rewrite app_nil_r | reflexivity].
  - simpl in Hwalk. destruct (lstatFails env path); [discriminate|].
    destruct (readDirFails env path); [discriminate|].
    simpl. revert acc Hwalk.
    induction IH as [|[name child] es Hchild _ IHes]; intros acc Hwalk.
    + injection Hwalk as <-. simpl. now rewrite app_nil_r.
    + simpl in Hchild.
      destruct (walk c env (Join path name) child acc) as [acc1|] eqn:E1;
        [|discriminate].
      rewrite (IHes acc1 Hwalk), (Hchild _ _ _ E1). simpl.
      now rewrite List.filter_app, <- app_assoc.
Qed.

(** The first pass classifies for removal exactly the regular files of the
    tree that are neither in the keep set nor protected, each once, in the
    order of the walk. *)
Theorem classified_exactly_rejected (c : Cleaner) (env : Env) (n : node)
    (toRemove : list string) :
  classified (Clean c env (Some n)) = Some toRemove ->
  toRemove = List.filter (fun p => negb (keepFile c p))
                         (filesOf env (sourceDir c) n).
Proof.
  rewrite classified_Clean. unfold Walk. intros Hwalk.
  now apply walk_classifies in Hwalk.
Qed.

(** A path of the keep set is never classified for removal. *)
Theorem keep_set_never_classified (c : Cleaner) (env : Env) (fs : fsState)
    (toRemove : list string) (p : string) :
  classified (Clean c env fs) = Some toRemove ->
  p ∈ filesToKeep c -> p ∉ toRemove.
Proof.
  intros Hclass Hkeep. eapply kept_not_classified; [exact Hclass|].
  unfold keepFile. now rewrite bool_decide_eq_true_2.
Qed.

Lemma removeAll_failure (c : Cleaner) (env : Env) :
  forall toRemove fs p fs',
    removeAll c env toRemove fs = (Some p, fs') ->
    exists done rest,
      toRemove = done ++ p :: rest
      /\ removeAll c env done fs = (None, fs')
      /\ fsRemove c env p fs' = None.
Proof.
  induction toRemove as [|path toRemove IH]; intros fs p fs' Hrun;
    [discriminate|].
  simpl in Hrun. destruct (fsRemove c env path fs) as [fs1|] eqn:E1.
  - destruct (IH _ _ _ Hrun) as (done & rest & -> & Hdone & Hfail).
    exists (path :: done), rest. split; [reflexivity|].
    split; [|exact Hfail]. simpl. now rewrite E1.
  - injection Hrun as <- <-. exists [], toRemove.
    split; [reflexivity|]. now split.
Qed.

(** When [Clean] fails on the removal of [p], the first pass had completed,
    the paths classified before [p] have been removed and stay removed,
    the removal of [p] is the one that failed, and the tree is left as it
    was at that point: nothing is rolled back and the collapse pass has
    not run. *)
Theorem removal_error_keeps_earlier_removals (c : Cleaner) (env : Env)
    (fs : fsState) (p : string) :
  failure (Clean c env fs) = Some (RemovalError p) ->
  exists done rest,
    classified (Clean c env fs) = Some (done ++ p :: rest)
    /\ removeAll c env done fs = (None, fsAfter (Clean c env fs))
    /\ fsRemove c env p (fsAfter (Clean c env fs)) = None
    /\ dryRun c = false.
Proof.
  unfold Clean. destruct (Walk c env fs) as [toRemove|]; [|discriminate].
  destruct (dryRun c) eqn:Edry; simpl.
  - destruct (removeEmptyDirsRoot c env fs) as [[|] fs3];
      [|discriminate]. simpl. discriminate.
  - destruct (removeAll c env toRemove fs) as [[path|] fs2] eqn:Erun.
    + simpl. intros [= ->].
      destruct (removeAll_failure c env _ _ _ _ Erun)
        as (done & rest & -> & Hdone & Hfail).
      exists done, rest. now repeat split.
    + destruct (removeEmptyDirsRoot c env fs2) as [[|] fs3];
        [|discriminate]. simpl.
      destruct (runGoModTidy c); [|discriminate].
      now destruct (goModTidy env (sourceDir c) fs3) as [[|] fs4].
Qed.

(** The collapse pass never removes a regular file, in live mode or in
    dry-run mode, whether it returns an error or not. *)
Theorem collapse_keeps_every_file (c : Cleaner) (env : Env)
    (fs : fsState) :
  filesOfState env (sourceDir c) (removeEmptyDirsRoot c env fs).2
  = filesOfState env (sourceDir c) fs.
Proof.
  destruct fs as [n|]; [|reflexivity]. apply removeEmptyDirs_files.
Qed.

Lemma filter_absent (target : string) (l : list string) :
  target ∉ l ->
  List.filter (fun p => negb (String.eqb p target)) l = l.
Proof.
  induction l as [|x l IH]; intros Hnot; [reflexivity|]. simpl.
  apply not_elem_of_cons in Hnot as [Hne Hnot].
  assert (String.eqb x target = false) as -> by (apply String.eqb_neq; auto).
  simpl. now rewrite IH.
Qed.

Lemma filesOf_paths (env : Env) :
  forall n path x, x ∈ filesOf env path n -> x ∈ pathsOf env path n.
Proof.
  induction n as [|es IH] using node_ind2; intros path x Hx.
  - simpl in *. now rewrite app_nil_r.
  - simpl in *. apply elem_of_app. right.
    induction IH as [|[name child] es Hchild _ IHes]; [exact Hx|].
    simpl in *. apply elem_of_app in Hx as [Hx|Hx]; apply elem_of_app;
      [left; now apply Hchild | right; now apply IHes].
Qed.

Lemma filesOf_sublist (env : Env) :
  forall n path, filesOf env path n `sublist_of` pathsOf env path n.
Proof.
  induction n as [|es IH] using node_ind2; intros path.
  - simpl. now rewrite app_nil_r.
  - simpl. apply sublist_inserts_l.
    induction IH as [|[name child] es Hchild _ IHes]; [constructor|].
    simpl. apply sublist_app; [apply Hchild | exact IHes].
Qed.

(** A target that is the path of no node is not found. *)
Lemma removeAt_absent (env : Env) (target : string) :
  forall n path,
    target ∉ pathsOf env path n ->
    removeAt env target path n = NotFound.
Proof.
  induction n as [|es IH] using node_ind2; intros path Hnot.
  - simpl in *. rewrite app_nil_r in Hnot. unfold absList in Hnot.
    rewrite bool_decide_eq_false_2; [reflexivity|].
    intros E. rewrite E in Hnot. apply Hnot. now left.
  - rewrite removeAt_Directory. simpl in Hnot.
    apply not_elem_of_app in Hnot as [Hself Hbelow].
    rewrite bool_decide_eq_false_2.
    2:{ intros E. unfold absList in Hself. rewrite E in Hself.
        apply Hself. now left. }
    assert (Hscan : scan env target path es = NotFound).
    { induction IH as [|[name child] es Hchild _ IHes]; [reflexivity|].
      simpl in Hbelow. apply not_elem_of_app in Hbelow as [Hc Hrest].
      simpl in Hchild. simpl. rewrite (Hchild _ Hc).
      fold (scan env target path es). now rewrite (IHes Hrest). }
    now rewrite Hscan.
Qed.

Lemma scan_cons (env : Env) (target path name : string) (child : node)
    (rest : list (string * node)) :
  scan env target path ((name, child) :: rest)
  = match removeAt env target (Join path name) child with
    | Removed None => Removed rest
    | Removed (Some child') => Removed ((name, child') :: rest)
    | Refused => Refused
    | NotFound =>
        match scan env target path rest with
        | Removed rest' => Removed ((name, child) :: rest')
        | Refused => Refused
        | NotFound => NotFound
        end
    end.
Proof. reflexivity. Qed.

Lemma files_in_paths_entries (env : Env) (path : string)
    (es : list (string * node)) (x : string) :
  x ∈ flat_map (fun e : string * node => filesOf env (Join path e.1) e.2) es ->
  x ∈ flat_map (fun e : string * node => pathsOf env (Join path e.1) e.2) es.
Proof.
  induction es as [|[name child] es IH]; [easy|]. simpl.
  rewrite !elem_of_app. intros [H|H];
    [left; now apply filesOf_paths | right; now apply IH].
Qed.

(** Removing the path of a regular file from a tree in which no two nodes
    share a path succeeds and takes away that file and nothing else. *)
Lemma removeAt_file (env : Env) (target : string) :
  forall n path,
    NoDup (pathsOf env path n) ->
    target ∈ filesOf env path n ->
    exists r,
      removeAt env target path n = Removed r
      /\ filesOfState env path r
         = List.filter (fun p => negb (String.eqb p target))
                       (filesOf env path n)
      /\ pathsOfState env path r
         = List.filter (fun p => negb (String.eqb p target))
                       (pathsOf env path n).
Proof.
  induction n as [|es IH] using node_ind2; intros path Hnodup Hin.
  - simpl in *. unfold absList in *.
    destruct (Abs (wd env) path) as [p|] eqn:Eabs; [|inversion Hin].
    apply list_elem_of_singleton in Hin as ->.
    rewrite bool_decide_eq_true_2 by reflexivity.
    exists None. simpl. rewrite String.eqb_refl. now repeat split.
  - rewrite removeAt_Directory. simpl in Hnodup, Hin.
    apply NoDup_app in Hnodup as (Hself & Hdisj & Hbelow).
    assert (Hne : target ∉ absList env path).
    { intros Hx. apply (Hdisj _ Hx).
      now apply files_in_paths_entries. }
    rewrite bool_decide_eq_false_2.
    2:{ intros E. apply Hne. unfold absList. rewrite E. now left. }
    assert (Hscan : exists es',
      scan env target path es = Removed es'
      /\ flat_map (fun e : string * node => filesOf env (Join path e.1) e.2)
                  es'
         = List.filter (fun p => negb (String.eqb p target))
             (flat_map (fun e : string * node =>
                          filesOf env (Join path e.1) e.2) es)
      /\ flat_map (fun e : string * node => pathsOf env (Join path e.1) e.2)
                  es'
         = List.filter (fun p => negb (String.eqb p target))
             (flat_map (fun e : string * node =>
                          pathsOf env (Join path e.1) e.2) es)).
    { clear Hself Hdisj Hne.
      induction IH as [|[name child] es Hchild _ IHes]; [inversion Hin|].
      simpl in Hbelow, Hin, Hchild.
      apply NoDup_app in Hbelow as (Hnc & Hdisj & Hnr).
      rewrite scan_cons. simpl. rewrite !List.filter_app.
      destruct (decide (target ∈ filesOf env (Join path name) child))
        as [Hhere|Hnothere].
      - destruct (Hchild _ Hnc Hhere) as (r & -> & Hfiles & Hpaths).
        assert (Hrest : target ∉ flat_map
                  (fun e : string * node => pathsOf env (Join path e.1) e.2)
                  es).
        { apply Hdisj. now apply filesOf_paths. }
        assert (Hrest' : target ∉ flat_map
                  (fun e : string * node => filesOf env (Join path e.1) e.2)
                  es).
        { intros Hx. apply Hrest. now apply files_in_paths_entries. }
        rewrite (filter_absent _ _ Hrest), (filter_absent _ _ Hrest').
        destruct r as [child'|]; simpl in Hfiles, Hpaths.
        + exists ((name, child') :: es). simpl.
          now rewrite Hfiles, Hpaths.
        + exists es. now rewrite <- Hfiles, <- Hpaths.
      - apply elem_of_app in Hin as [Hin|Hin]; [contradiction|].
        assert (Hnopath : target ∉ pathsOf env (Join path name) child).
        { intros Hx. apply (Hdisj _ Hx).
          now apply files_in_paths_entries. }
        rewrite (removeAt_absent env target child _ Hnopath).
        destruct (IHes Hnr Hin) as (es' & -> & Hfiles & Hpaths).
        exists ((name, child) :: es'). simpl.
        rewrite Hfiles, Hpaths.
        now rewrite (filter_absent _ _ Hnothere), (filter_absent _ _ Hnopath). }
    destruct Hscan as (es' & -> & Hfiles & Hpaths).
    exists (Some (Directory es')). split; [reflexivity|]. simpl.
    split; [exact Hfiles|].
    now rewrite List.filter_app, Hpaths, (filter_absent _ _ Hne).
Qed.

Lemma NoDup_List_filter (f : string -> bool) (l : list string) :
  NoDup l -> NoDup (List.filter f l).
Proof.
  induction 1 as [|x l Hx Hl IH]; simpl; [constructor|].
  destruct (f x); [|exact IH]. constructor; [|exact IH].
  intros Hin. apply Hx.
  apply list_elem_of_In, filter_In in Hin as [Hin _].
  now apply list_elem_of_In.
Qed.

Lemma filter_removed_cons (t : string) (rest l : list string) :
  List.filter (fun p => negb (bool_decide (p ∈ rest)))
    (List.filter (fun p => negb (String.eqb p t)) l)
  = List.filter (fun p => negb (bool_decide (p ∈ t :: rest))) l.
Proof.
  induction l as [|x l IH]; [reflexivity|]. simpl.
  destruct (String.eqb x t) eqn:E; simpl.
  - apply String.eqb_eq in E. subst x.
    rewrite (bool_decide_eq_true_2 (t ∈ t :: rest)) by now left.
    exact IH.
  - apply String.eqb_neq in E. rewrite IH.
    destruct (decide (x ∈ rest)) as [Hin|Hnot].
    + rewrite !bool_decide_eq_true_2; [reflexivity | now right | exact Hin].
    + rewrite !bool_decide_eq_false_2; [reflexivity | | exact Hnot].
      intros H. apply elem_of_cons in H as [H|H]; contradiction.
Qed.

(** The removal loop, when it meets no failure on a list of distinct file
    paths of the tree, leaves the files that are not on the list. *)
Lemma removeAll_files (c : Cleaner) (env : Env) :
  forall toRemove fs fs',
    NoDup (pathsOfState env (sourceDir c) fs) ->
    NoDup toRemove ->
    (forall x, x ∈ toRemove -> x ∈ filesOfState env (sourceDir c) fs) ->
    removeAll c env toRemove fs = (None, fs') ->
    filesOfState env (sourceDir c) fs'
    = List.filter (fun p => negb (bool_decide (p ∈ toRemove)))
                  (filesOfState env (sourceDir c) fs)
    /\ NoDup (pathsOfState env (sourceDir c) fs').
Proof.
  induction toRemove as [|t rest IH]; intros fs fs' Hpaths Hnodup Hall Hrun.
  - injection Hrun as <-. split; [|exact Hpaths].
    induction (filesOfState env (sourceDir c) fs) as [|x l IHl];
      [reflexivity|].
    cbn [List.filter].
    rewrite (bool_decide_eq_false_2 (x ∈ [])) by apply not_elem_of_nil.
    cbn [negb]. now rewrite <- IHl.
  - simpl in Hrun. unfold fsRemove in Hrun.
    destruct (removeFails env t); [discriminate|].
    assert (Ht : t ∈ filesOfState env (sourceDir c) fs)
      by (apply Hall; now left).
    destruct fs as [n|]; [|inversion Ht]. simpl in Ht, Hpaths.
    destruct (removeAt_file env t n _ Hpaths Ht)
      as (r & Heq & Hfiles & Hpaths').
    rewrite Heq in Hrun. apply NoDup_cons in Hnodup as [Hfresh Hnodup].
    destruct (IH r fs') as [Hfs' Hnd']; [| exact Hnodup | | exact Hrun |].
    + rewrite Hpaths'. now apply NoDup_List_filter.
    + intros x Hx. rewrite Hfiles. apply list_elem_of_In, filter_In.
      split; [apply list_elem_of_In, (Hall x); now right|].
      apply negb_true_iff, String.eqb_neq. now intros ->.
    + split; [|exact Hnd']. rewrite Hfs', Hfiles. simpl.
      apply filter_removed_cons.
Qed.

Lemma live_clean_files_aux (c : Cleaner) (env : Env) (n : node) :
  dryRun c = false -> runGoModTidy c = false ->
  NoDup (pathsOf env (sourceDir c) n) ->
  failure (Clean c env (Some n)) = None ->
  filesOfState env (sourceDir c) (fsAfter (Clean c env (Some n)))
  = List.filter (keepFile c) (filesOf env (sourceDir c) n).
Proof.
  intros Hlive Htidy Hpaths. unfold Clean, Walk.
  destruct (walk c env (sourceDir c) n []) as [toRemove|] eqn:Ewalk;
    [|discriminate].
  apply walk_classifies in Ewalk. simpl in Ewalk.
  rewrite Hlive, Htidy. simpl.
  destruct (removeAll c env toRemove (Some n)) as [[p|] fs2] eqn:Erun;
    [discriminate|].
  pose proof (removeEmptyDirs_files c env) as Hcollapse.
  assert (Hfiles2 : filesOfState env (sourceDir c) fs2
                    = List.filter (keepFile c) (filesOf env (sourceDir c) n)).
  { destruct (removeAll_files c env toRemove (Some n) fs2) as [-> _];
      [exact Hpaths | | | exact Erun |].
    - subst toRemove. apply NoDup_List_filter.
      eapply sublist_NoDup; [exact Hpaths | apply filesOf_sublist].
    - intros x Hx. subst toRemove.
      apply list_elem_of_In, filter_In in Hx as [Hx _].
      now apply list_elem_of_In.
    - simpl. apply filter_ext_in. intros x Hx. subst toRemove.
      destruct (keepFile c x) eqn:Ek.
      + rewrite bool_decide_eq_false_2; [reflexivity|].
        intros H. apply list_elem_of_In, filter_In in H as [_ H].
        now rewrite Ek in H.
      + rewrite bool_decide_eq_true_2; [reflexivity|].
        apply list_elem_of_In, filter_In. split; [exact Hx|].
        now rewrite Ek. }
  unfold removeEmptyDirsRoot.
  destruct fs2 as [n2|]; [|discriminate].
  specialize (Hcollapse n2 (sourceDir c)).
  destruct (removeEmptyDirs c env (sourceDir c) n2) as [[|] fs3];
    [|discriminate].
  simpl in *. intros _. now rewrite Hcollapse.
Qed.

(** A live [Clean] that returns [nil], on a tree in which no two nodes
    share a path and without the tidy step, leaves exactly the regular
    files that [keepFile] accepts: those of the keep set and the
    protected ones, in their order. *)
Theorem live_clean_leaves_kept_files (c : Cleaner) (env : Env) (n : node) :
  dryRun c = false -> runGoModTidy c = false ->
  NoDup (pathsOf env (sourceDir c) n) ->
  failure (Clean c env (Some n)) = None ->
  filesOfState env (sourceDir c) (fsAfter (Clean c env (Some n)))
  = List.filter (keepFile c) (filesOf env (sourceDir c) n).
Proof. apply live_clean_files_aux. Qed.

(** The walk returns a list exactly when it meets no failure. *)
Lemma walk_walkable (c : Cleaner) (env : Env) :
  forall n path acc,
    is_Some (walk c env path n acc) <-> walkable env path n = true.
Proof.
  induction n as [|es IH] using node_ind2; intros path acc.
  - simpl. unfold walkFn. destruct (lstatFails env path); simpl.
    + split; [intros [? ?]; discriminate | discriminate].
    + destruct (Abs (wd env) path) as [absPath|].
      * rewrite bool_decide_eq_true_2 by eauto.
        split; [reflexivity|]. intros _. destruct (keepFile c absPath); eauto.
      * rewrite bool_decide_eq_false_2 by (intros [? ?]; discriminate).
        split; [intros [? ?]; discriminate | discriminate].
  - simpl. destruct (lstatFails env path); simpl.
    { split; [intros [? ?]; discriminate | discriminate]. }
    destruct (readDirFails env path); simpl.
    { split; [intros [? ?]; discriminate | discriminate]. }
    revert acc. induction IH as [|[name child] es Hchild _ IHes];
      intros acc; simpl.
    + split; eauto.
    + simpl in Hchild. rewrite andb_true_iff, <- (Hchild (Join path name) acc).
      destruct (walk c env (Join path name) child acc) as [acc1|].
      * rewrite (IHes acc1). split; [intros H; split; eauto | now intros [_ H]].
      * split; [intros [? ?]; discriminate|].
        intros [[? ?] _]. discriminate.
Qed.

(** Removing a node keeps what is left free of walk failures, and keeps
    the names of what is left. *)
Lemma removeAt_keeps (env : Env) (target : string) :
  forall n path n',
    removeAt env target path n = Removed (Some n') ->
    (walkable env path n = true -> walkable env path n' = true)
    /\ (Props.validNames n = true -> Props.validNames n' = true).
Proof.
  induction n as [|es IH] using node_ind2; intros path n' Hrm.
  - simpl in Hrm. now destruct (bool_decide _).
  - rewrite removeAt_Directory in Hrm.
    destruct (bool_decide _); [now destruct es|].
    destruct (scan env target path es) as [| |es'] eqn:Escan;
      try discriminate.
    injection Hrm as <-.
    assert (Hscan :
      (forallb (fun e : string * node => walkable env (Join path e.1) e.2)
               es = true ->
       forallb (fun e : string * node => walkable env (Join path e.1) e.2)
               es' = true)
      /\ (forallb (fun e : string * node =>
                     Props.validName e.1 && Props.validNames e.2) es = true ->
          forallb (fun e : string * node =>
                     Props.validName e.1 && Props.validNames e.2) es'
          = true)).
    { revert es' Escan.
      induction IH as [|[name child] es Hchild _ IHes]; intros es' Escan;
        [discriminate|].
      rewrite scan_cons in Escan. simpl in Hchild.
      destruct (removeAt env target (Join path name) child)
        as [| |[child'|]] eqn:Echild; try discriminate.
      - destruct (scan env target path es) as [| |rest'];
          try discriminate.
        injection Escan as <-. destruct (IHes rest' eq_refl) as [Hw Hv].
        simpl. split; intros H; apply andb_prop in H as [H1 H2];
          apply andb_true_intro; split; auto.
      - injection Escan as <-.
        destruct (Hchild _ _ Echild) as [Hw Hv].
        simpl. split; intros H; apply andb_prop in H as [H1 H2];
          apply andb_true_intro; split; auto.
        apply andb_prop in H1 as [Hname Hsub].
        apply andb_true_intro. split; auto.
      - injection Escan as <-. simpl.
        split; intros H; now apply andb_prop in H as [_ H]. }
    destruct Hscan as [Hw Hv]. simpl. split; [|exact Hv].
    intros H. apply andb_prop in H as [H1 H]. apply andb_prop in H as [H2 H].
    rewrite H1, H2. simpl. now apply Hw.
Qed.

Lemma removeAll_keeps (c : Cleaner) (env : Env) :
  forall toRemove n n',
    removeAll c env toRemove (Some n) = (None, Some n') ->
    (walkable env (sourceDir c) n = true ->
     walkable env (sourceDir c) n' = true)
    /\ (Props.validNames n = true -> Props.validNames n' = true).
Proof.
  induction toRemove as [|t rest IH]; intros n n' Hrun.
  - injection Hrun as <-. now split.
  - simpl in Hrun. unfold fsRemove in Hrun.
    destruct (removeFails env t); [discriminate|].
    destruct (removeAt env t (sourceDir c) n) as [| |[n1|]] eqn:Erm;
      try discriminate.
    + destruct (removeAt_keeps env t n _ _ Erm) as [Hw Hv].
      destruct (IH _ _ Hrun) as [Hw' Hv']. split; auto.
    + destruct rest as [|t' rest]; [discriminate|].
      simpl in Hrun. unfold fsRemove in Hrun.
      now destruct (removeFails env t').
Qed.

(** What the collapse pass leaves can still be walked without failure. *)
Lemma removeEmptyDirs_walkable (c : Cleaner) (env : Env) :
  forall n path n',
    (removeEmptyDirs c env path n).2 = Some n' ->
    walkable env path n = true -> walkable env path n' = true.
Proof.
  induction n as [|es IH] using node_ind2; intros path n' Hrun Hwalk.
  - simpl in Hrun. now injection Hrun as <-.
  - rewrite removeEmptyDirs_Directory in Hrun. simpl in Hwalk.
    apply andb_prop in Hwalk as [Hstat Hwalk].
    apply andb_prop in Hwalk as [Hread Hwalk].
    assert (Hsub :
      forallb (fun e : string * node => walkable env (Join path e.1) e.2)
              (subdirs c env path es).2 = true).
    { clear Hrun. induction IH as [|[name child] es Hchild _ IHes];
        [reflexivity|].
      cbn [forallb fst snd] in Hwalk, Hchild.
      apply andb_prop in Hwalk as [Hhere Hrest].
      specialize (IHes Hrest). rewrite subdirs_cons.
      destruct (subdirs c env path es) as [ok rest']. cbn [snd] in IHes.
      destruct child as [|sub];
        [cbn [forallb fst snd]; now rewrite Hhere, IHes|].
      destruct (protectGit c && String.eqb name ".git");
        [cbn [forallb fst snd]; now rewrite Hhere, IHes|].
      specialize (Hchild (Join path name)).
      destruct (removeEmptyDirs c env (Join path name) (Directory sub))
        as [[|] [child'|]]; cbn [snd consEntry forallb fst] in *;
        try rewrite (Hchild _ eq_refl Hhere); auto. }
    destruct (subdirs c env path es) as [ok entries']. simpl in Hsub.
    assert (Hdir : walkable env path (Directory entries') = true).
    { simpl. now rewrite Hstat, Hread, Hsub. }
    destruct (readDirFails env path); [discriminate|].
    destruct ok; simpl in Hrun; [|now injection Hrun as <-].
    destruct ((length entries' =? 0)%nat
              && negb (String.eqb path (sourceDir c)));
      [|now injection Hrun as <-].
    destruct (dryRun c); [now injection Hrun as <-|].
    destruct (removeFails env path); [now injection Hrun as <-|].
    discriminate.
Qed.

(** After a live collapse pass that returned [nil], the pass has nothing
    left to do on what it left. *)
Lemma removeEmptyDirs_settles (c : Cleaner) (env : Env) :
  dryRun c = false ->
  forall n path n',
    rootDistinctBelow (sourceDir c) path n = true ->
    removeEmptyDirs c env path n = (true, Some n') ->
    settled c env path n' = true.
Proof.
  intros Hlive. induction n as [|es IH] using node_ind2;
    intros path n' Hdistinct Hrun; [discriminate|].
  rewrite removeEmptyDirs_Directory in Hrun.
  destruct (readDirFails env path) eqn:Eread; [discriminate|].
  assert (Hsub : forall es', subdirs c env path es = (true, es') ->
    forallb
      (fun e : string * node =>
         match e.2 with
         | File => true
         | Directory sub =>
             (protectGit c && String.eqb e.1 ".git")
             || (negb (length sub =? 0)%nat
                 && settled c env (Join path e.1) e.2)
         end) es' = true).
  { simpl in Hdistinct. clear Hrun.
    induction IH as [|[name child] es Hchild _ IHes]; intros es' Hes'.
    - now injection Hes' as <-.
    - simpl in Hdistinct. apply andb_prop in Hdistinct as [Hhere Hrest].
      specialize (IHes Hrest). rewrite subdirs_cons in Hes'.
      simpl in Hchild.
      destruct (subdirs c env path es) as [ok rest'].
      destruct child as [|sub].
      + injection Hes' as -> <-. simpl. now apply IHes.
      + destruct (protectGit c && String.eqb name ".git") eqn:Egit.
        * injection Hes' as -> <-. simpl in *. rewrite Egit. simpl.
          now apply IHes.
        * apply andb_prop in Hhere as [Hneq Hbelow].
          destruct (removeEmptyDirs c env (Join path name) (Directory sub))
            as [[|] child'] eqn:Echild; [|discriminate].
          injection Hes' as -> <-.
          pose proof (removeEmptyDirs_live c env Hlive _ _ _ Hbelow Echild)
            as Hlivechild.
          destruct child' as [n1|]; simpl; [|now apply IHes].
          specialize (Hchild _ n1 Hbelow Echild).
          destruct Hlivechild as [_ Hfull].
          destruct Hfull as (e & es'' & ->).
          { apply negb_true_iff, String.eqb_neq in Hneq. exact Hneq. }
          cbn [length Nat.eqb negb andb].
          rewrite Hchild, orb_true_r. simpl. now apply IHes. }
  destruct (subdirs c env path es) as [[|] entries']; [|discriminate].
  specialize (Hsub entries' eq_refl). simpl in Hrun.
  destruct ((length entries' =? 0)%nat
            && negb (String.eqb path (sourceDir c))).
  - rewrite Hlive in Hrun. now destruct (removeFails env path).
  - injection Hrun as <-. simpl. now rewrite Eread, Hsub.
Qed.

(** On a settled directory that holds an entry, or is the source
    directory, the collapse pass returns [nil] and changes nothing. *)
Lemma removeEmptyDirs_settled (c : Cleaner) (env : Env) :
  forall n path,
    settled c env path n = true ->
    (exists es, n = Directory es
                /\ (es <> [] \/ path = sourceDir c)) ->
    removeEmptyDirs c env path n = (true, Some n).
Proof.
  induction n as [|es IH] using node_ind2;
    intros path Hsettled (es0 & Heq & Hfull); [discriminate|].
  injection Heq as <-. rewrite removeEmptyDirs_Directory.
  simpl in Hsettled. apply andb_prop in Hsettled as [Hread Hsettled].
  apply negb_true_iff in Hread. rewrite Hread.
  assert (Hsub : subdirs c env path es = (true, es)).
  { clear Hfull.
    induction IH as [|[name child] es Hchild _ IHes]; [reflexivity|].
    simpl in Hsettled, Hchild.
    apply andb_prop in Hsettled as [Hhere Hrest].
    rewrite subdirs_cons, (IHes Hrest).
    destruct child as [|sub]; [reflexivity|].
    destruct (protectGit c && String.eqb name ".git"); [reflexivity|].
    simpl in Hhere. apply andb_prop in Hhere as [Hlen Hsub].
    rewrite (Hchild _ Hsub); [reflexivity|].
    exists sub. split; [reflexivity|]. left.
    destruct sub; [discriminate | discriminate]. }
  rewrite Hsub. simpl.
  replace ((length es =? 0)%nat && negb (String.eqb path (sourceDir c)))
    with false; [reflexivity|].
  symmetry. destruct Hfull as [Hne | ->].
  - destruct es; [contradiction | reflexivity].
  - rewrite String.eqb_refl. apply andb_false_r.
Qed.

Lemma removeEmptyDirs_ok_Directory (c : Cleaner) (env : Env)
    (path : string) (n n' : node) :
  removeEmptyDirs c env path n = (true, Some n') ->
  exists es', n' = Directory es'.
Proof.
  destruct n as [|es]; [discriminate|].
  rewrite removeEmptyDirs_Directory.
  destruct (readDirFails env path); [discriminate|].
  destruct (subdirs c env path es) as [[|] entries']; [|discriminate].
  simpl.
  destruct ((length entries' =? 0)%nat
            && negb (String.eqb path (sourceDir c)));
    [destruct (dryRun c); [|now destruct (removeFails env path)]|];
    intros [= <-]; eauto.
Qed.

Lemma collapse_twice (c : Cleaner) (env : Env) (n n' : node) :
  dryRun c = false -> Props.validNames n = true ->
  removeEmptyDirs c env (sourceDir c) n = (true, Some n') ->
  removeEmptyDirs c env (sourceDir c) n' = (true, Some n').
Proof.
  intros Hlive Hvalid Hrun.
  assert (Hdistinct : rootDistinctBelow (sourceDir c) (sourceDir c) n = true).
  { apply (validNames_rootDistinct (sourceDir c) n [] (sourceDir c));
      [constructor | reflexivity | exact Hvalid]. }
  apply removeEmptyDirs_settled.
  - exact (removeEmptyDirs_settles c env Hlive n _ _ Hdistinct Hrun).
  - destruct (removeEmptyDirs_ok_Directory _ _ _ _ _ Hrun) as [es' ->].
    exists es'. split; [reflexivity | now right].
Qed.

(** The collapse pass is idempotent: run again on what a live pass that
    returned [nil] has left, it returns [nil] and removes nothing. *)
Theorem collapse_idempotent (c : Cleaner) (env : Env) (n n' : node) :
  dryRun c = false -> Props.validNames n = true ->
  removeEmptyDirs c env (sourceDir c) n = (true, Some n') ->
  removeEmptyDirs c env (sourceDir c) n' = (true, Some n').
Proof. apply collapse_twice. Qed.

Lemma filter_rejected_of_kept (c : Cleaner) (l : list string) :
  List.filter (fun p => negb (keepFile c p)) (List.filter (keepFile c) l)
  = [].
Proof.
  induction l as [|x l IH]; [reflexivity|]. simpl.
  destruct (keepFile c x) eqn:E; [|exact IH]. simpl. now rewrite E.
Qed.

(** The three passes of a live [Clean] that returned [nil]. *)
Lemma live_clean_passes (c : Cleaner) (env : Env) (n : node) :
  dryRun c = false -> runGoModTidy c = false ->
  failure (Clean c env (Some n)) = None ->
  exists toRemove n2 n3,
    walk c env (sourceDir c) n [] = Some toRemove
    /\ removeAll c env toRemove (Some n) = (None, Some n2)
    /\ removeEmptyDirs c env (sourceDir c) n2 = (true, Some n3)
    /\ fsAfter (Clean c env (Some n)) = Some n3.
Proof.
  intros Hlive Htidy. unfold Clean, Walk.
  destruct (walk c env (sourceDir c) n []) as [toRemove|] eqn:Ewalk;
    [|discriminate].
  rewrite Hlive, Htidy. simpl.
  destruct (removeAll c env toRemove (Some n)) as [[p|] fs2] eqn:Erun;
    [discriminate|].
  unfold removeEmptyDirsRoot. destruct fs2 as [n2|]; [|discriminate].
  pose proof (removeEmptyDirs_keeps_root c env n2) as Hroot.
  destruct (removeEmptyDirs c env (sourceDir c) n2) as [[|] [n3|]] eqn:Epass;
    try discriminate; [|now contradiction Hroot].
  simpl. intros _. exists toRemove, n2, n3. now repeat split.
Qed.

(** [Clean] is idempotent: run again on the tree a successful live run has
    left, it classifies nothing for removal, returns [nil] and leaves the
    tree as it is. *)
Theorem clean_idempotent (c : Cleaner) (env : Env) (n : node) :
  dryRun c = false -> runGoModTidy c = false ->
  Props.validNames n = true ->
  NoDup (pathsOf env (sourceDir c) n) ->
  failure (Clean c env (Some n)) = None ->
  Clean c env (fsAfter (Clean c env (Some n)))
  = mkOutcome None (fsAfter (Clean c env (Some n))) (Some []).
Proof.
  intros Hlive Htidy Hvalid Hpaths Hok.
  pose proof (live_clean_files_aux c env n Hlive Htidy Hpaths Hok) as Hfiles.
  destruct (live_clean_passes c env n Hlive Htidy Hok)
    as (toRemove & n2 & n3 & Ewalk & Erun & Epass & Hafter).
  rewrite Hafter in *. simpl in Hfiles.
  assert (Hwalkable : walkable env (sourceDir c) n = true).
  { apply (walk_walkable c env n (sourceDir c) []). rewrite Ewalk. eauto. }
  destruct (removeAll_keeps c env _ _ _ Erun) as [Hw2 Hv2].
  pose proof (removeEmptyDirs_walkable c env n2 (sourceDir c) n3) as Hw3.
  rewrite Epass in Hw3. specialize (Hw3 eq_refl (Hw2 Hwalkable)).
  pose proof (collapse_twice c env n2 n3 Hlive (Hv2 Hvalid) Epass) as Hagain.
  unfold Clean, Walk.
  destruct (proj2 (walk_walkable c env n3 (sourceDir c) []) Hw3)
    as [toRemove' Ewalk'].
  rewrite Ewalk'. apply walk_classifies in Ewalk'. simpl in Ewalk'.
  rewrite Hfiles, filter_rejected_of_kept in Ewalk'.
  subst toRemove'. rewrite Hlive, Htidy. simpl.
  unfold removeEmptyDirsRoot. now rewrite Hagain.
Qed.

(** In dry-run mode the collapse pass returns [nil] on a directory below
    which every directory can be read. *)
Lemma removeEmptyDirs_dry_ok (c : Cleaner) (env : Env) :
  dryRun c = true ->
  forall n path es,
    n = Directory es -> walkable env path n = true ->
    removeEmptyDirs c env path n = (true, Some n).
Proof.
  intros Hdry. induction n as [|es IH] using node_ind2;
    intros path es0 Heq Hwalk; [discriminate|].
  rewrite removeEmptyDirs_Directory. simpl in Hwalk.
  apply andb_prop in Hwalk as [_ Hwalk].
  apply andb_prop in Hwalk as [Hread Hwalk].
  apply negb_true_iff in Hread. rewrite Hread.
  assert (Hsub : subdirs c env path es = (true, es)).
  { clear Heq.
    induction IH as [|[name child] es Hchild _ IHes]; [reflexivity|].
    cbn [forallb fst snd] in Hwalk, Hchild.
    apply andb_prop in Hwalk as [Hhere Hrest].
    rewrite subdirs_cons, (IHes Hrest).
    destruct child as [|sub]; [reflexivity|].
    destruct (protectGit c && String.eqb name ".git"); [reflexivity|].
    now rewrite (Hchild _ sub eq_refl Hhere). }
  rewrite Hsub, Hdry. simpl.
  now destruct ((length es =? 0)%nat && negb (String.eqb path (sourceDir c))).
Qed.

(** In dry-run mode, on a source directory that exists, [Clean] returns
    [nil] exactly when no [Lstat] and no [ReadDir] of the walk fails and
    every file has an absolute path: removal failures cannot occur. *)
Theorem dry_run_succeeds_iff (c : Cleaner) (env : Env)
    (es : list (string * node)) :
  dryRun c = true ->
  failure (Clean c env (Some (Directory es))) = None
  <-> walkable env (sourceDir c) (Directory es) = true.
Proof.
  intros Hdry. unfold Clean, Walk.
  rewrite <- (walk_walkable c env (Directory es) (sourceDir c) []).
  destruct (walk c env (sourceDir c) (Directory es) []) as [toRemove|] eqn:E.
  - split; [eauto|]. intros _.
    assert (Hw : walkable env (sourceDir c) (Directory es) = true).
    { apply (walk_walkable c env (Directory es) (sourceDir c) []).
      rewrite E. eauto. }
    rewrite Hdry. cbn [negb]. cbv beta iota. unfold removeEmptyDirsRoot.
    now rewrite (removeEmptyDirs_dry_ok c env Hdry _ _ es eq_refl Hw).
  - split; [discriminate | intros [? ?]; discriminate].
Qed.

Lemma removeAll_prefix (c : Cleaner) (env : Env) :
  forall toRemove fs r fs',
    removeAll c env toRemove fs = (r, fs') ->
    exists done rest,
      toRemove = done ++ rest /\ removeAll c env done fs = (None, fs').
Proof.
  intros toRemove fs [p|] fs' Hrun.
  - destruct (removeAll_failure c env _ _ _ _ Hrun)
      as (done & rest & -> & Hdone & _).
    now exists done, (p :: rest).
  - exists toRemove, []. now rewrite app_nil_r.
Qed.

(** Whatever [Clean] returns, without the tidy step it has removed no file
    that [keepFile] accepts: every file of the keep set and every
    protected file that was in the tree is still there, also after a
    failure half-way. *)
Theorem kept_files_survive (c : Cleaner) (env : Env) (n : node)
    (p : string) :
  runGoModTidy c = false ->
  NoDup (pathsOf env (sourceDir c) n) ->
  p ∈ filesOf env (sourceDir c) n -> keepFile c p = true ->
  p ∈ filesOfState env (sourceDir c) (fsAfter (Clean c env (Some n))).
Proof.
  intros Htidy Hpaths Hin Hkept. unfold Clean, Walk.
  destruct (walk c env (sourceDir c) n []) as [toRemove|] eqn:Ewalk;
    [|exact Hin].
  apply walk_classifies in Ewalk. simpl in Ewalk. rewrite Htidy, andb_false_r.
  assert (Hstay : forall fs2 r,
            removeAll c env toRemove (Some n) = (r, fs2) ->
            p ∈ filesOfState env (sourceDir c) fs2).
  { intros fs2 r Hrun.
    destruct (removeAll_prefix c env _ _ _ _ Hrun)
      as (done & rest & Hsplit & Hdone).
    assert (Hnodup : NoDup toRemove).
    { subst toRemove. apply NoDup_List_filter.
      eapply sublist_NoDup; [exact Hpaths | apply filesOf_sublist]. }
    rewrite Hsplit in Hnodup. apply NoDup_app in Hnodup as (Hnd & _ & _).
    destruct (removeAll_files c env done (Some n) fs2) as [-> _];
      [exact Hpaths | exact Hnd | | exact Hdone |].
    + intros x Hx.
      assert (Hx' : x ∈ toRemove)
        by (rewrite Hsplit; apply elem_of_app; now left).
      rewrite Ewalk in Hx'.
      apply list_elem_of_In, filter_In in Hx' as [Hx' _].
      now apply list_elem_of_In.
    + apply list_elem_of_In, filter_In.
      split; [now apply list_elem_of_In|].
      rewrite bool_decide_eq_false_2; [reflexivity|]. intros Hx.
      assert (Hx' : p ∈ toRemove)
        by (rewrite Hsplit; apply elem_of_app; now left).
      rewrite Ewalk in Hx'.
      apply list_elem_of_In, filter_In in Hx' as [_ Hx'].
      now rewrite Hkept in Hx'. }
  assert (Hcollapse : forall fs2,
            p ∈ filesOfState env (sourceDir c) fs2 ->
            p ∈ filesOfState env (sourceDir c)
                  (removeEmptyDirsRoot c env fs2).2).
  { intros [n2|] Hp; [|inversion Hp]. simpl.
    now rewrite removeEmptyDirs_files. }
  destruct (dryRun c); cbn [negb]; cbv beta iota.
  - specialize (Hcollapse (Some n) Hin).
    now destruct (removeEmptyDirsRoot c env (Some n)) as [[|] fs3].
  - destruct (removeAll c env toRemove (Some n)) as [[q|] fs2] eqn:Erun.
    + exact (Hstay _ _ eq_refl).
    + specialize (Hcollapse fs2 (Hstay _ _ eq_refl)).
      now destruct (removeEmptyDirsRoot c env fs2) as [[|] fs3].
Qed.

End EngineFiles.

(** ** One run of the tool *)

Section Run.

Import Pkglist Cleaner Discovery Orchestrator Props.

Lemma closed_reaches (packages : gmap string Package) (kept : gset string)
    (p d : string) :
  closed packages kept -> p ∈ kept -> reaches packages p d -> d ∈ kept.
Proof.
  intros Hclosed Hp. induction 1 as [|q d pkg _ IH Hq Hd Hin];
    [exact Hp|].
  exact (Hclosed q IH pkg d Hq Hd Hin).
Qed.

(** A run whose listing succeeds ends with [Clean], and [Clean] classifies
    for removal no primary and no embedded file of a package that a
    pattern matches or that such a package reaches through in-tree
    dependencies. *)
Theorem run_keeps_needed_sources (records : list GoListRecord)
    (matchOrder listOrder : list (string * Package))
    (closeOrder : list string) (dir : string) (patterns : list string)
    (withTests protectGit protectGoMod dryRun : bool)
    (env : Env) (fs : fsState) :
  rangeOrderMap matchOrder (FindAll records) ->
  rangeOrder closeOrder (FilterByPatterns matchOrder patterns) ->
  rangeOrderMap listOrder (FindAll records) ->
  exists outcome,
    run (Some (map Some records)) matchOrder closeOrder listOrder dir
        patterns withTests protectGit protectGoMod dryRun env fs
    = Some (Cleaned outcome)
    /\ forall toRemove pattern p pkg0 d pkg f,
        classified outcome = Some toRemove ->
        pattern ∈ patterns ->
        FindAll records !! p = Some pkg0 ->
        matchPackage pattern p (Dir pkg0) = true ->
        reaches (FindAll records) p d ->
        FindAll records !! d = Some pkg ->
        f ∈ GoFiles pkg ++ EmbedFiles pkg ->
        Filepath.Join (Dir pkg) f ∉ toRemove.
Proof.
  intros Hmatch Hclose Hlist. unfold run, FindAllFrom.
  rewrite decodeLoop_ok. fold (FindAll records).
  destruct (AddDependencies_returns (FindAll records) closeOrder _ Hclose)
    as (kept & -> & Hsub & Hclosed).
  eexists. split; [reflexivity|].
  intros toRemove pattern p pkg0 d pkg f Hclass Hpat Hp Hm Hreach Hd Hf.
  eapply kept_not_classified; [exact Hclass|].
  unfold keepFile. rewrite bool_decide_eq_true_2; [reflexivity|].
  change (filesToKeep _)
    with (list_to_set (GetFileList listOrder kept withTests) : gset string).
  apply elem_of_list_to_set, GetFileList_elem.
  exists (d, pkg). split; [|split].
  - unfold rangeOrderMap in Hlist. rewrite Hlist.
    now apply elem_of_map_to_list.
  - simpl. apply (closed_reaches (FindAll records) kept p d Hclosed);
      [|exact Hreach].
    apply Hsub, FilterByPatterns_elem. exists pattern, (p, pkg0).
    split; [exact Hpat|]. split.
    + unfold rangeOrderMap in Hmatch. rewrite Hmatch.
      now apply elem_of_map_to_list.
    + simpl. rewrite (FindAll_own_key records p pkg0 Hp). now split.
  - simpl. unfold packageFiles. rewrite !elem_of_app.
    apply elem_of_app in Hf as [Hf|Hf];
      [left | right; right]; now apply list_elem_of_fmap_2.
Qed.

End Run.

(** ** Construction of the cleaner *)

Section Construction.

Import Cleaner.

Lemma options_keep_inputs (opts : list Option) (c : Cleaner) :
  Forall providedOption opts ->
  sourceDir (fold_left (fun c (opt : Option) => opt c) opts c) = sourceDir c
  /\ filesToKeep (fold_left (fun c (opt : Option) => opt c) opts c)
     = filesToKeep c.
Proof.
  intros Hopts. revert c. induction Hopts as [|opt opts Hopt _ IH];
    intros c; [now split|].
  simpl. destruct (IH (opt c)) as [-> ->]. now destruct Hopt.
Qed.

(** Whatever provided options are passed, in whatever order, the cleaner
    [New] builds has the source directory it was given and keeps exactly
    the listed paths. *)
Theorem New_keeps_inputs (dir : string) (files : list string)
    (opts : list Option) (p : string) :
  Forall providedOption opts ->
  sourceDir (New dir files opts) = dir
  /\ (p ∈ filesToKeep (New dir files opts) <-> p ∈ files).
Proof.
  intros Hopts. unfold New.
  destruct (options_keep_inputs opts
              {| sourceDir := dir; filesToKeep := list_to_set files;
                 protectGit := true; protectGoMod := true;
                 keepTests := false; dryRun := false;
                 runGoModTidy := false |} Hopts) as [-> ->].
  split; [reflexivity|]. simpl. apply elem_of_list_to_set.
Qed.

(** Of two options that set the same field the later one wins; without
    options both protections are on and the run is live. *)
Theorem New_last_option_wins (dir : string) (files : list string)
    (opts : list Option) (dry git gomod : bool) :
  dryRun (New dir files (opts ++ [WithDryRun dry])) = dry
  /\ protectGit (New dir files (opts ++ [WithGitProtection git])) = git
  /\ protectGoMod (New dir files (opts ++ [WithGoModProtection gomod]))
     = gomod
  /\ protectGit (New dir files []) = true
  /\ protectGoMod (New dir files []) = true
  /\ dryRun (New dir files []) = false.
Proof. unfold New. rewrite !fold_left_app. now repeat split. Qed.

End Construction.

(** ** More on matching and on the state [Clean] leaves *)

Section MoreMatching.

Import Strings Pkglist Cleaner Listing.

Lemma append_assoc (a b c : string) : (a +:+ b) +:+ c = a +:+ b +:+ c.
Proof.
  induction a as [|ch a IH]; [reflexivity|].
  change (String ch ((a +:+ b) +:+ c) = String ch (a +:+ b +:+ c)).
  now rewrite IH.
Qed.

Lemma prefix_app (a b : string) : String.prefix a (a +:+ b) = true.
Proof.
  induction a as [|ch a IH].
  - now destruct b.
  - change (String.prefix (String ch a) (String ch a +:+ b))
      with (if ascii_dec ch ch then String.prefix a (a +:+ b) else false).
    now destruct (ascii_dec ch ch).
Qed.

(** The pattern [p/...] matches every package whose identity lies below
    [p], and every package whose identity ends in [/p], whatever their
    directories. *)
Theorem wildcard_matches_below_and_suffix (p x dir : string) :
  matchPackage (p +:+ "/...") (p +:+ "/" +:+ x) dir = true
  /\ matchPackage (p +:+ "/...") (x +:+ "/" +:+ p) dir = true.
Proof.
  unfold matchPackage, Filepath.ToSlash.
  rewrite HasSuffix_app, TrimSuffix_app. split.
  - destruct (String.eqb (p +:+ "/...") (p +:+ "/" +:+ x)); [reflexivity|].
    destruct (String.eqb p "."); [reflexivity|].
    replace (HasPrefix (p +:+ "/" +:+ x) (p +:+ "/")) with true.
    + now rewrite orb_true_r.
    + symmetry. unfold HasPrefix.
      rewrite <- append_assoc. apply prefix_app.
  - destruct (String.eqb (p +:+ "/...") (x +:+ "/" +:+ p)); [reflexivity|].
    destruct (String.eqb p "."); [reflexivity|].
    replace (x +:+ "/" +:+ p) with (x +:+ ("/" +:+ p)) by reflexivity.
    now rewrite HasSuffix_app.
Qed.

(** A live [Clean] that returns [nil] leaves no empty directory below the
    source directory, the directories named [.git] and what they hold
    apart when version-control protection is on. *)
Theorem clean_leaves_no_empty_directory (c : Cleaner) (env : Env)
    (n : node) :
  dryRun c = false -> runGoModTidy c = false ->
  Props.validNames n = true ->
  failure (Clean c env (Some n)) = None ->
  exists n',
    fsAfter (Clean c env (Some n)) = Some n'
    /\ noEmptyDirs (protectGit c) n' = true.
Proof.
  intros Hlive Htidy Hvalid Hok.
  destruct (live_clean_passes c env n Hlive Htidy Hok)
    as (toRemove & n2 & n3 & _ & Erun & Epass & Hafter).
  exists n3. split; [exact Hafter|].
  destruct (removeAll_keeps c env _ _ _ Erun) as [_ Hv2].
  assert (Hdistinct : rootDistinctBelow (sourceDir c) (sourceDir c) n2 = true).
  { apply (validNames_rootDistinct (sourceDir c) n2 [] (sourceDir c));
      [constructor | reflexivity | now apply Hv2]. }
  now destruct (removeEmptyDirs_live c env Hlive n2 _ _ Hdistinct Epass).
Qed.

End MoreMatching.

(** ** The further properties on the scenarios *)

Module Witnesses.

Import Pkglist Cleaner Listing Orchestrator Scenarios.

Lemma repoOrder_range : rangeOrderMap repoOrder repoPackages.
Proof. unfold rangeOrderMap, repoOrder. reflexivity. Qed.

Lemma repoKeep_range : rangeOrder ["repo/pkg2"] repoKeep.
Proof. unfold rangeOrder, repoKeep. now rewrite elements_singleton. Qed.

Lemma pkg2_in_order :
  ("repo/pkg2", decodePackage pkg2Record) ∈ repoOrder.
Proof.
  unfold repoOrder. apply elem_of_map_to_list. vm_compute. reflexivity.
Qed.

Lemma file_list_without_tests_witness :
  exists kv,
    kv ∈ map_to_list fixturePackages /\ kv.1 ∈ ({["pkg1"]} : gset string)
    /\ ("/test/pkg1/main.go"
          ∈ map (Filepath.Join (Dir kv.2)) (GoFiles kv.2)
        \/ ("/test/pkg1/main.go"
              ∈ map (Filepath.Join (Dir kv.2)) (OtherFiles kv.2)
            /\ Strings.Contains "/test/pkg1/main.go" "/testdata/" = false)
        \/ "/test/pkg1/main.go"
             ∈ map (Filepath.Join (Dir kv.2)) (EmbedFiles kv.2)).
Proof.
  apply file_list_without_tests.
  replace (GetFileList (map_to_list fixturePackages) {["pkg1"]} false)
    with ["/test/pkg1/main.go"] by (vm_compute; reflexivity).
  now left.
Defined.

Lemma GetFileList_tests_only_add_witness :
  "/test/pkg1/main.go"
  ∈ GetFileList (map_to_list fixturePackages) {["pkg1"]} true.
Proof.
  apply GetFileList_tests_only_add.
  replace (GetFileList (map_to_list fixturePackages) {["pkg1"]} false)
    with ["/test/pkg1/main.go"] by (vm_compute; reflexivity).
  now left.
Defined.

Lemma GetFileList_always_witness :
  Filepath.Join (Dir (decodePackage pkg2Record)) "util.go"
  ∈ GetFileList repoOrder repoKeep false.
Proof.
  apply (GetFileList_always repoOrder repoKeep false
           ("repo/pkg2", decodePackage pkg2Record) "util.go").
  - exact pkg2_in_order.
  - simpl. unfold repoKeep. now apply elem_of_singleton.
  - simpl. right. now left.
Defined.

Lemma projection_complete_witness :
  Filepath.Join (Dir (decodePackage pkg2Record)) "main.go"
  ∈ GetFileList repoOrder repoKeep true.
Proof.
  apply (projection_complete repoPackages repoOrder repoKeep
           "repo/pkg2" (decodePackage pkg2Record) "main.go").
  - exact repoOrder_range.
  - vm_compute. reflexivity.
  - unfold repoKeep. now apply elem_of_singleton.
  - simpl. now left.
Defined.

Lemma closure_least_witness :
  exists kept : gset string,
    AddDependencies repoPackages ["repo/pkg2"] repoKeep = Some kept
    /\ kept ⊆ repoKeep ∪ dom repoPackages.
Proof.
  apply closure_least.
  - exact repoKeep_range.
  - apply union_subseteq_l.
  - intros p pkg d _ _ _ Hin. apply elem_of_union. right.
    now apply elem_of_dom.
Defined.

Lemma both_range (order : list string) :
  NoDup order ->
  (forall x, x ∈ order <-> x = "repo/pkg1" \/ x = "repo/pkg2") ->
  rangeOrder order {["repo/pkg1"; "repo/pkg2"]}.
Proof.
  intros Hnd Hall. unfold rangeOrder.
  apply NoDup_Permutation; [exact Hnd | apply NoDup_elements|].
  intros x. rewrite elem_of_elements, Hall. set_solver.
Qed.

Lemma closure_order_independent_witness :
  AddDependencies repoPackages ["repo/pkg1"; "repo/pkg2"]
    {["repo/pkg1"; "repo/pkg2"]}
  = AddDependencies repoPackages ["repo/pkg2"; "repo/pkg1"]
      {["repo/pkg1"; "repo/pkg2"]}.
Proof.
  apply closure_order_independent; apply both_range.
  - repeat constructor; set_solver.
  - intros x. set_solver.
  - repeat constructor; set_solver.
  - intros x. set_solver.
Defined.

Lemma pair_range (a b : string) :
  a <> b -> rangeOrder [a; b] {[a; b]}.
Proof.
  intros Hne. unfold rangeOrder.
  apply NoDup_Permutation; [|apply NoDup_elements|].
  - repeat constructor; set_solver.
  - intros x. rewrite elem_of_elements. set_solver.
Qed.

Lemma single_range (a : string) : rangeOrder [a] {[a]}.
Proof. unfold rangeOrder. now rewrite elements_singleton. Qed.

Lemma closure_monotone_witness :
  AddDependencies triPackages ["repo/pkg2"] {["repo/pkg2"]}
  = Some {["repo/pkg1"; "repo/pkg2"]}
  /\ AddDependencies triPackages ["repo/pkg2"; "repo/pkg3"]
       {["repo/pkg2"; "repo/pkg3"]}
     = Some {["repo/pkg1"; "repo/pkg2"; "repo/pkg3"]}
  /\ ({["repo/pkg1"; "repo/pkg2"]} : gset string)
     ⊆ {["repo/pkg1"; "repo/pkg2"; "repo/pkg3"]}.
Proof.
  assert (E1 : AddDependencies triPackages ["repo/pkg2"] {["repo/pkg2"]}
               = Some {["repo/pkg1"; "repo/pkg2"]})
    by (vm_compute; reflexivity).
  assert (E2 : AddDependencies triPackages ["repo/pkg2"; "repo/pkg3"]
                 {["repo/pkg2"; "repo/pkg3"]}
               = Some {["repo/pkg1"; "repo/pkg2"; "repo/pkg3"]})
    by (vm_compute; reflexivity).
  destruct (closure_monotone triPackages ["repo/pkg2"]
              ["repo/pkg2"; "repo/pkg3"] {["repo/pkg2"]}
              {["repo/pkg2"; "repo/pkg3"]})
    as (kept & kept' & H1 & H2 & Hsub).
  - apply single_range.
  - apply pair_range. discriminate.
  - apply union_subseteq_l.
  - rewrite E1 in H1. rewrite E2 in H2.
    injection H1 as <-. injection H2 as <-.
    split; [exact E1|]. split; [exact E2 | exact Hsub].
Defined.

Lemma classified_exactly_rejected_witness :
  ["/src/pkg1/file2.go"; "/src/pkg2/file3.go"]
  = List.filter (fun p => negb (keepFile testCleaner p))
                (filesOf quiet (sourceDir testCleaner) testNode).
Proof.
  apply (classified_exactly_rejected testCleaner quiet testNode).
  vm_compute. reflexivity.
Defined.

Lemma file1_kept : "/src/pkg1/file1.go" ∈ filesToKeep testCleaner.
Proof.
  change (filesToKeep testCleaner)
    with (list_to_set ["/src/pkg1/file1.go"; "/src/pkg2/file4_test.go"]
          : gset string).
  apply elem_of_list_to_set. now left.
Qed.

Lemma keep_set_never_classified_witness :
  "/src/pkg1/file1.go" ∉ ["/src/pkg1/file2.go"; "/src/pkg2/file3.go"].
Proof.
  apply (keep_set_never_classified testCleaner quiet (Some testNode)).
  - vm_compute. reflexivity.
  - exact file1_kept.
Defined.

Lemma removal_error_keeps_earlier_removals_witness :
  exists done rest,
    classified (Clean testCleaner file3Locked (Some testNode))
    = Some (done ++ "/src/pkg2/file3.go" :: rest)
    /\ removeAll testCleaner file3Locked done (Some testNode)
       = (None, fsAfter (Clean testCleaner file3Locked (Some testNode)))
    /\ fsRemove testCleaner file3Locked "/src/pkg2/file3.go"
         (fsAfter (Clean testCleaner file3Locked (Some testNode))) = None
    /\ dryRun testCleaner = false.
Proof.
  apply removal_error_keeps_earlier_removals. vm_compute. reflexivity.
Defined.

Lemma NoDup_checked (l : list string) :
  bool_decide (NoDup l) = true -> NoDup l.
Proof. apply bool_decide_eq_true_1. Qed.

Lemma testNode_paths : NoDup (pathsOf quiet (sourceDir testCleaner) testNode).
Proof. apply NoDup_checked. vm_compute. reflexivity. Qed.

Lemma live_clean_leaves_kept_files_witness :
  filesOfState quiet (sourceDir testCleaner)
    (fsAfter (Clean testCleaner quiet (Some testNode)))
  = List.filter (keepFile testCleaner)
                (filesOf quiet (sourceDir testCleaner) testNode).
Proof.
  apply live_clean_leaves_kept_files;
    [reflexivity | reflexivity | exact testNode_paths
    | vm_compute; reflexivity].
Defined.

Lemma collapse_idempotent_witness :
  removeEmptyDirs plainCleaner quiet (sourceDir plainCleaner) collapsedHollow
  = (true, Some collapsedHollow).
Proof.
  apply (collapse_idempotent plainCleaner quiet hollowTree);
    [reflexivity | reflexivity | vm_compute; reflexivity].
Defined.

Lemma clean_idempotent_witness :
  Clean testCleaner quiet (fsAfter (Clean testCleaner quiet (Some testNode)))
  = mkOutcome None (fsAfter (Clean testCleaner quiet (Some testNode)))
              (Some []).
Proof.
  apply clean_idempotent;
    [reflexivity | reflexivity | reflexivity | exact testNode_paths
    | vm_compute; reflexivity].
Defined.

Lemma dry_run_succeeds_iff_witness :
  failure (Clean dryCleaner quiet testTree) = None
  <-> walkable quiet (sourceDir dryCleaner) testNode = true.
Proof. apply (dry_run_succeeds_iff dryCleaner quiet). reflexivity. Defined.

Lemma kept_files_survive_witness :
  "/src/pkg1/file1.go"
  ∈ filesOfState file3Locked (sourceDir testCleaner)
      (fsAfter (Clean testCleaner file3Locked (Some testNode))).
Proof.
  apply kept_files_survive.
  - reflexivity.
  - apply NoDup_checked. vm_compute. reflexivity.
  - vm_compute. now left.
  - vm_compute. reflexivity.
Defined.

Lemma pkg2_reaches_pkg1 :
  reaches (FindAll [pkg1Record; pkg2Record]) "repo/pkg2" "repo/pkg1".
Proof.
  apply (reaches_dep _ "repo/pkg2" "repo/pkg2" "repo/pkg1"
           (decodePackage pkg2Record)).
  - apply reaches_here.
  - vm_compute. reflexivity.
  - simpl. now left.
  - exists (decodePackage pkg1Record). vm_compute. reflexivity.
Qed.

Lemma run_keeps_needed_sources_witness :
  exists outcome,
    run (Some (map Some [pkg1Record; pkg2Record])) repoOrder
        (elements (FilterByPatterns repoOrder ["repo/pkg2"])) repoOrder
        "/repo" ["repo/pkg2"] false true true false quiet repoTree
    = Some (Cleaned outcome)
    /\ failure outcome = None
    /\ classified outcome = Some ["/repo/pkg3/extra.go"]
    /\ (Filepath.Join (Dir (decodePackage pkg1Record)) "util.go"
        ∉ ["/repo/pkg3/extra.go"]).
Proof.
  destruct (run_keeps_needed_sources [pkg1Record; pkg2Record] repoOrder
              repoOrder (elements (FilterByPatterns repoOrder ["repo/pkg2"]))
              "/repo" ["repo/pkg2"] false true true false quiet repoTree)
    as (outcome & Hrun & Hsafe).
  - exact repoOrder_range.
  - unfold rangeOrder. reflexivity.
  - exact repoOrder_range.
  - exists outcome. split; [exact Hrun|].
    assert (Hout : failure outcome = None
                   /\ classified outcome = Some ["/repo/pkg3/extra.go"]).
    { vm_compute in Hrun. injection Hrun as <-. now split. }
    destruct Hout as [Hok Hclass].
    split; [exact Hok|]. split; [exact Hclass|].
    apply (Hsafe ["/repo/pkg3/extra.go"] "repo/pkg2" "repo/pkg2"
             (decodePackage pkg2Record) "repo/pkg1"
             (decodePackage pkg1Record) "util.go").
    + exact Hclass.
    + now left.
    + vm_compute. reflexivity.
    + reflexivity.
    + exact pkg2_reaches_pkg1.
    + vm_compute. reflexivity.
    + simpl. right. now left.
Defined.

Lemma New_keeps_inputs_witness :
  sourceDir (New "/src" ["/src/a.go"] [WithDryRun true; WithGoModTidy true])
  = "/src"
  /\ ("/src/a.go"
        ∈ filesToKeep
            (New "/src" ["/src/a.go"] [WithDryRun true; WithGoModTidy true])
      <-> "/src/a.go" ∈ ["/src/a.go"]).
Proof. apply New_keeps_inputs. repeat constructor. Defined.

Lemma clean_leaves_no_empty_directory_witness :
  exists n',
    fsAfter (Clean plainCleaner quiet (Some testNode)) = Some n'
    /\ noEmptyDirs (protectGit plainCleaner) n' = true.
Proof.
  apply clean_leaves_no_empty_directory;
    [reflexivity | reflexivity | reflexivity | vm_compute; reflexivity].
Defined.

End Witnesses.
